(** * Session manager and image upload dimensions of the social app

    A shallow embedding of two parts of the client:

    - the session provider ([Provider] and [createPersistSessionHandler]):
      the React state [SessionState], the updater closures handed to
      [setState], the asynchronous operations of the [ApiContext] and the
      listener registered with [persisted.onUpdate];
    - [ImageModel.getUploadDimensions], [ImageModel.getResizedDimensions]
      and [ImageModel.ratioMultipliers].

    Conventions of the embedding.

    - An optional TypeScript field ([x?: T], [T | undefined]) is an
      [option].  The JavaScript operator [a || b] on strings treats the
      empty string like [undefined]; it is written out in [orStr],
      [orOptStr] and [orBool].
    - [setState(fn)] runs the updater [fn] on the latest state.  The
      closures passed to it in the source are finitely many; each one is a
      constructor of [Updater] and [applyUpdater] is its body.
    - Everything else an operation does (notifications, the query cache,
      the logger) is appended to a chronological list of [Effect]s, so that
      "emitted exactly once" is a statement about that list.
    - A promise is the value it settles with: [Resolved] or [Rejected e].
    - The backend client ([BskyAgent] of [@atproto/api]) is outside the
      repository.  Its behaviour during one awaited call is an input of the
      model ([ClientCall]): the persist-session events it fires while the
      call runs, and whether the call returns or throws. *)

From Stdlib Require Import String List Bool Arith Lia QArith Lqa.
From Stdlib Require Import Permutation.
Import ListNotations.

Close Scope Q_scope.
Open Scope string_scope.
Open Scope list_scope.

(* ===================================================================== *)
(** ** Data model *)
(* ===================================================================== *)

(** Modelled from the spec: [persisted.PersistedAccount] (the module
    [#/state/persisted] is not among the sources).  The fields are the ones
    the provider reads and writes; the two tokens are optional "because they
    can expire", and [email] may be absent at run time
    ([agent.session.email!]). *)
Record SessionAccount : Type := mkAccount {
  service : string;
  did : string;
  handle : string;
  email : option string;
  emailConfirmed : bool;
  refreshJwt : option string;
  accessJwt : option string
}.

(** Modelled from the spec: [AtpSessionData] of the backend client, the type
    of [agent.session] and of the second argument of the persist-session
    handler: fields [did], [handle], [email], [emailConfirmed], [accessJwt],
    [refreshJwt]. *)
Record AtpSessionData : Type := mkSessionData {
  s_did : string;
  s_handle : string;
  s_email : option string;
  s_emailConfirmed : option bool;
  s_refreshJwt : string;
  s_accessJwt : string
}.

Record SessionState : Type := mkState {
  isInitialLoad : bool;
  isSwitchingAccounts : bool;
  accounts : list SessionAccount;
  currentAccount : option SessionAccount
}.

(** The argument of [updateCurrentAccount]:
    [Partial<Pick<SessionAccount, 'handle' | 'email' | 'emailConfirmed'>>]. *)
Record AccountPatch : Type := mkPatch {
  p_handle : option string;
  p_email : option string;
  p_emailConfirmed : option bool
}.

(** The record [persisted.get('session')] returns. *)
Record PersistedSession : Type := mkPersisted {
  ps_accounts : list SessionAccount;
  ps_currentAccount : option SessionAccount
}.

(** What [__globalAgent] points to: the shared public agent, or an agent
    built by one of the operations (its service URL as a string, its
    session, and the account captured by its persist-session handler when
    one is registered). *)
Inductive Agent : Type :=
| PUBLIC_BSKY_AGENT
| BskyAgent (serviceStr : string) (session : option AtpSessionData)
            (handlerAccount : option SessionAccount).

(* --------------------------------------------------------------------- *)
(** *** JavaScript truthiness *)

Definition truthy (s : string) : bool := negb (String.eqb s "").

(** [x || y] where [x : string | undefined] and [y : string]. *)
Definition orStr (x : option string) (y : string) : string :=
  match x with
  | Some s => if truthy s then s else y
  | None => y
  end.

(** [x || y] where both sides are [string | undefined]. *)
Definition orOptStr (x y : option string) : option string :=
  match x with
  | Some s => if truthy s then Some s else y
  | None => y
  end.

(** [x || y] where [x : boolean | undefined] and [y : boolean]. *)
Definition orBool (x : option bool) (y : bool) : bool :=
  match x with
  | Some true => true
  | _ => y
  end.

(** [a?.did] for an optional account. *)
Definition didOf (a : option SessionAccount) : option string :=
  option_map did a.

Definition optStrEqb (x y : option string) : bool :=
  match x, y with
  | Some a, Some b => String.eqb a b
  | None, None => true
  | _, _ => false
  end.

(* ===================================================================== *)
(** ** State updaters *)
(* ===================================================================== *)

(** One constructor per closure passed to [setState] or
    [setStateAndPersist] in [Provider]. *)
Inductive Updater : Type :=
| UpsertAccount (account : SessionAccount) (expired : bool)
| ClearCurrentAccount
| StripTokens
| RemoveAccount (account : SessionAccount)
| UpdateCurrentAccount (account : AccountPatch)
| SetIsInitialLoad (b : bool)
| SetIsSwitchingAccounts (b : bool).

(** [s.accounts.filter(a => a.did !== d)] *)
Definition withoutDid (d : string) (l : list SessionAccount)
  : list SessionAccount :=
  filter (fun a => negb (String.eqb (did a) d)) l.

Definition stripTokens (a : SessionAccount) : SessionAccount :=
  {| service := service a; did := did a; handle := handle a;
     email := email a; emailConfirmed := emailConfirmed a;
     refreshJwt := None; accessJwt := None |}.

Definition patchAccount (currentAccount : SessionAccount)
    (account : AccountPatch) : SessionAccount :=
  {| service := service currentAccount;
     did := did currentAccount;
     handle := orStr (p_handle account) (handle currentAccount);
     email := orOptStr (p_email account) (email currentAccount);
     emailConfirmed :=
       match p_emailConfirmed account with
       | Some b => b
       | None => emailConfirmed currentAccount
       end;
     refreshJwt := refreshJwt currentAccount;
     accessJwt := accessJwt currentAccount |}.

Definition applyUpdater (u : Updater) (s : SessionState) : SessionState :=
  match u with
  | UpsertAccount account expired =>
      {| isInitialLoad := isInitialLoad s;
         isSwitchingAccounts := isSwitchingAccounts s;
         accounts := account :: withoutDid (did account) (accounts s);
         currentAccount := if expired then None else Some account |}
  | ClearCurrentAccount =>
      {| isInitialLoad := isInitialLoad s;
         isSwitchingAccounts := isSwitchingAccounts s;
         accounts := accounts s;
         currentAccount := None |}
  | StripTokens =>
      {| isInitialLoad := isInitialLoad s;
         isSwitchingAccounts := isSwitchingAccounts s;
         accounts := map stripTokens (accounts s);
         currentAccount := currentAccount s |}
  | RemoveAccount account =>
      {| isInitialLoad := isInitialLoad s;
         isSwitchingAccounts := isSwitchingAccounts s;
         accounts := withoutDid (did account) (accounts s);
         currentAccount := currentAccount s |}
  | UpdateCurrentAccount account =>
      match currentAccount s with
      | None => s
      | Some cur =>
          let updatedAccount := patchAccount cur account in
          {| isInitialLoad := isInitialLoad s;
             isSwitchingAccounts := isSwitchingAccounts s;
             accounts := updatedAccount :: withoutDid (did cur) (accounts s);
             currentAccount := Some updatedAccount |}
      end
  | SetIsInitialLoad b =>
      {| isInitialLoad := b;
         isSwitchingAccounts := isSwitchingAccounts s;
         accounts := accounts s;
         currentAccount := currentAccount s |}
  | SetIsSwitchingAccounts b =>
      {| isInitialLoad := isInitialLoad s;
         isSwitchingAccounts := b;
         accounts := accounts s;
         currentAccount := currentAccount s |}
  end.

Definition applyUpdaters (us : list Updater) (s : SessionState)
  : SessionState :=
  fold_left (fun acc u => applyUpdater u acc) us s.

(* ===================================================================== *)
(** ** Effects and the provider's monad *)
(* ===================================================================== *)

Inductive Effect : Type :=
| SetState (u : Updater)
| EmitSessionLoaded (account : SessionAccount) (agent : Agent)
| EmitSessionDropped
| QueryClientClear
| LogDebug (msg : string)
| LogError (msg : string).

(** The mutable cells of the module and of the component: the React state,
    the module variable [__globalAgent] and the ref [isDirty]. *)
Record World : Type := mkWorld {
  state : SessionState;
  globalAgent : Agent;
  isDirty : bool
}.

(** A computation reads and writes the world and appends effects. *)
Definition M (A : Type) : Type := World -> A * World * list Effect.

Definition ret {A : Type} (a : A) : M A := fun w => (a, w, []).

Definition bind {A B : Type} (m : M A) (f : A -> M B) : M B :=
  fun w =>
    let '(a, w1, es1) := m w in
    let '(b, w2, es2) := f a w1 in
    (b, w2, es1 ++ es2).

Declare Scope session_scope.
Delimit Scope session_scope with session.
Notation "x <- m ;; k" := (bind m (fun x => k))
  (at level 61, m at next level, right associativity) : session_scope.
Notation "m ;; k" := (bind m (fun _ => k))
  (at level 61, right associativity) : session_scope.
Open Scope session_scope.

Definition valueOf {A : Type} (r : A * World * list Effect) : A :=
  fst (fst r).
Definition worldOf {A : Type} (r : A * World * list Effect) : World :=
  snd (fst r).
Definition effectsOf {A : Type} (r : A * World * list Effect) : list Effect :=
  snd r.

Definition effect (e : Effect) : M unit := fun w => (tt, w, [e]).

Definition setState (u : Updater) : M unit :=
  fun w =>
    (tt,
     {| state := applyUpdater u (state w);
        globalAgent := globalAgent w;
        isDirty := isDirty w |},
     [SetState u]).

Definition setStateAndPersist (u : Updater) : M unit :=
  fun w =>
    (tt,
     {| state := applyUpdater u (state w);
        globalAgent := globalAgent w;
        isDirty := true |},
     [SetState u]).

Definition setGlobalAgent (agent : Agent) : M unit :=
  fun w =>
    (tt,
     {| state := state w; globalAgent := agent; isDirty := isDirty w |},
     []).

Definition getState : M SessionState := fun w => (state w, w, []).

Definition logDebug (msg : string) : M unit := effect (LogDebug msg).
Definition logError (msg : string) : M unit := effect (LogError msg).
Definition emitSessionDropped : M unit := effect EmitSessionDropped.
Definition emitSessionLoaded (account : SessionAccount) (agent : Agent)
  : M unit := effect (EmitSessionLoaded account agent).
Definition queryClientClear : M unit := effect QueryClientClear.

(** The state updates among a list of effects, in order. *)
Fixpoint updatesIn (es : list Effect) : list Updater :=
  match es with
  | [] => []
  | SetState u :: rest => u :: updatesIn rest
  | _ :: rest => updatesIn rest
  end.

Definition isSessionDropped (e : Effect) : bool :=
  match e with EmitSessionDropped => true | _ => false end.

Definition countEffects (p : Effect -> bool) (es : list Effect) : nat :=
  length (filter p es).

(* ===================================================================== *)
(** ** The persist-session handler *)
(* ===================================================================== *)

(** [const expired = !(event === 'create' || event === 'update')] *)
Definition isExpiredEvent (event : string) : bool :=
  negb (String.eqb event "create" || String.eqb event "update").

(** The record [refreshedAccount] built by [persistSession]. *)
Definition refreshedAccountOf (account : SessionAccount)
    (session : option AtpSessionData) : SessionAccount :=
  {| service := service account;
     did := orStr (option_map s_did session) (did account);
     handle := orStr (option_map s_handle session) (handle account);
     email :=
       orOptStr (match session with Some s => s_email s | None => None end)
                (email account);
     emailConfirmed :=
       orBool (match session with
               | Some s => s_emailConfirmed s
               | None => None
               end)
              (emailConfirmed account);
     refreshJwt := option_map s_refreshJwt session;
     accessJwt := option_map s_accessJwt session |}.

Definition PersistSessionHandler : Type :=
  string -> option AtpSessionData -> M unit.

Definition createPersistSessionHandler (account : SessionAccount)
    (persistSessionCallback : bool -> SessionAccount -> M unit)
  : PersistSessionHandler :=
  fun event session =>
    let expired := isExpiredEvent event in
    let refreshedAccount := refreshedAccountOf account session in
    logDebug "session: BskyAgent.persistSession" ;;
    (if expired then emitSessionDropped else ret tt) ;;
    persistSessionCallback expired refreshedAccount.

(* ===================================================================== *)
(** ** The backend client *)
(* ===================================================================== *)

(** What the client threw; [isNetworkError] is the test of
    [lib/errors] that [networkRetry] applies to it. *)
Record ClientFailure : Type := mkFailure {
  isNetworkError : bool;
  message : string
}.

(** How an awaited call on the agent ends: it returns, and [agent.session]
    then holds [session]; or it throws. *)
Inductive CallResult : Type :=
| Returned (session : option AtpSessionData)
| Threw (e : ClientFailure).

(** One awaited call: the persist-session events the agent fires while it
    runs (delivered to the handler registered on the agent, if any), then
    its result. *)
Record ClientCall : Type := mkCall {
  fired : list (string * option AtpSessionData);
  result : CallResult
}.

(** The agent an operation constructs: [agent.service.toString()] and its
    behaviour at the first, second, ... call made on it. *)
Record Client : Type := mkClient {
  serviceString : string;
  calls : nat -> ClientCall
}.

Inductive Error : Type :=
| EstablishmentError (msg : string)
| ClientError (e : ClientFailure)
| UndefinedError.

Inductive Outcome : Type :=
| Resolved
| Rejected (e : Error).

Fixpoint fire (handler : PersistSessionHandler)
    (events : list (string * option AtpSessionData)) : M unit :=
  match events with
  | [] => ret tt
  | (event, session) :: rest => handler event session ;; fire handler rest
  end.

Definition agentCall (handler : option PersistSessionHandler)
    (c : ClientCall) : M CallResult :=
  match handler with
  | Some h => fire h (fired c)
  | None => ret tt
  end ;;
  ret (result c).

(** Modelled from the spec: [networkRetry] of [#/lib/async/retry] (not
    among the sources): the call is "retried up to 3 attempts on transient
    failure before surfacing the error".  [fn attempt] is the [attempt]-th
    invocation of the callback; a failure that is not a network error is
    surfaced at once, and the last failure is surfaced when the budget is
    used up.  The result is the error thrown, or the returned value. *)
Fixpoint networkRetry (retries : nat) (fn : nat -> M CallResult)
    (attempt : nat) (lastErr : option ClientFailure)
  : M (Error + option AtpSessionData) :=
  match retries with
  | O =>
      ret (inl (match lastErr with
                | Some e => ClientError e
                | None => UndefinedError
                end))
  | S retries' =>
      r <- fn attempt ;;
      match r with
      | Returned session => ret (inr session)
      | Threw e =>
          if isNetworkError e
          then networkRetry retries' fn (S attempt) (Some e)
          else ret (inl (ClientError e))
      end
  end.

(* ===================================================================== *)
(** ** Operations of the session API *)
(* ===================================================================== *)

Record CreateAccountProps : Type := mkCreateProps {
  ca_service : string;
  ca_email : string;
  ca_password : string;
  ca_handle : string;
  ca_inviteCode : option string
}.

Record LoginProps : Type := mkLoginProps {
  li_service : string;
  li_identifier : string;
  li_password : string
}.

Definition upsertAccount (account : SessionAccount) (expired : bool)
  : M unit :=
  setStateAndPersist (UpsertAccount account expired).

(** [({expired, refreshedAccount}) => upsertAccount(refreshedAccount, expired)] *)
Definition persistSessionCallback (expired : bool)
    (refreshedAccount : SessionAccount) : M unit :=
  upsertAccount refreshedAccount expired.

Definition createAccount (props : CreateAccountProps) (client : Client)
  : M Outcome :=
  logDebug "session: creating account" ;;
  (* const agent = new BskyAgent({service}): no handler registered yet *)
  r <- agentCall None (calls client 0) ;;
  match r with
  | Threw e => ret (Rejected (ClientError e))
  | Returned None =>
      ret (Rejected (EstablishmentError
             "session: createAccount failed to establish a session"))
  | Returned (Some session) =>
      let account :=
        {| service := serviceString client;
           did := s_did session;
           handle := s_handle session;
           email := s_email session;
           emailConfirmed := false;
           refreshJwt := Some (s_refreshJwt session);
           accessJwt := Some (s_accessJwt session) |} in
      let agent :=
        BskyAgent (serviceString client) (Some session) (Some account) in
      setGlobalAgent agent ;;
      queryClientClear ;;
      upsertAccount account false ;;
      emitSessionLoaded account agent ;;
      logDebug "session: created account" ;;
      ret Resolved
  end.

Definition login (props : LoginProps) (client : Client) : M Outcome :=
  logDebug "session: login" ;;
  r <- agentCall None (calls client 0) ;;
  match r with
  | Threw e => ret (Rejected (ClientError e))
  | Returned None =>
      ret (Rejected (EstablishmentError
             "session: login failed to establish a session"))
  | Returned (Some session) =>
      let account :=
        {| service := serviceString client;
           did := s_did session;
           handle := s_handle session;
           email := s_email session;
           emailConfirmed := orBool (s_emailConfirmed session) false;
           refreshJwt := Some (s_refreshJwt session);
           accessJwt := Some (s_accessJwt session) |} in
      let agent :=
        BskyAgent (serviceString client) (Some session) (Some account) in
      setGlobalAgent agent ;;
      queryClientClear ;;
      upsertAccount account false ;;
      emitSessionLoaded account agent ;;
      logDebug "session: logged in" ;;
      ret Resolved
  end.

Definition clearCurrentAccount : M unit :=
  logDebug "session: clear current account" ;;
  setGlobalAgent PUBLIC_BSKY_AGENT ;;
  queryClientClear ;;
  setStateAndPersist ClearCurrentAccount.

Definition logout : M Outcome :=
  clearCurrentAccount ;;
  logDebug "session: logout" ;;
  setStateAndPersist StripTokens ;;
  ret Resolved.

Definition freshAccountOf (client : Client) (session : AtpSessionData)
  : SessionAccount :=
  {| service := serviceString client;
     did := s_did session;
     handle := s_handle session;
     email := s_email session;
     emailConfirmed := orBool (s_emailConfirmed session) false;
     refreshJwt := Some (s_refreshJwt session);
     accessJwt := Some (s_accessJwt session) |}.

Definition initSession (account : SessionAccount) (client : Client)
  : M Outcome :=
  logDebug "session: initSession" ;;
  (* new BskyAgent({service, persistSession: createPersistSessionHandler(..)}) *)
  let persistSession :=
    createPersistSessionHandler account persistSessionCallback in
  r <- networkRetry 3
         (fun attempt => agentCall (Some persistSession) (calls client attempt))
         0 None ;;
  match r with
  | inl e => ret (Rejected e)
  | inr None =>
      ret (Rejected (EstablishmentError
             "session: initSession failed to establish a session"))
  | inr (Some session) =>
      let freshAccount := freshAccountOf client session in
      let agent :=
        BskyAgent (serviceString client) (Some session) (Some account) in
      setGlobalAgent agent ;;
      queryClientClear ;;
      upsertAccount freshAccount false ;;
      emitSessionLoaded freshAccount agent ;;
      ret Resolved
  end.

Definition resumeSession (account : option SessionAccount) (client : Client)
  : M Outcome :=
  (* try *)
  r <- match account with
       | Some a => initSession a client
       | None => ret Resolved
       end ;;
  (* catch *)
  match r with
  | Rejected e => logError "session: resumeSession failed"
  | Resolved => ret tt
  end ;;
  (* finally *)
  setState (SetIsInitialLoad false) ;;
  ret Resolved.

Definition removeAccount (account : SessionAccount) : M unit :=
  setStateAndPersist (RemoveAccount account).

Definition updateCurrentAccount (account : AccountPatch) : M unit :=
  setStateAndPersist (UpdateCurrentAccount account).

Definition selectAccount (account : SessionAccount) (client : Client)
  : M Outcome :=
  setState (SetIsSwitchingAccounts true) ;;
  r <- initSession account client ;;
  match r with
  | Resolved =>
      setState (SetIsSwitchingAccounts false) ;;
      ret Resolved
  | Rejected e =>
      (* reset this in case of error, but other listeners need a throw *)
      setState (SetIsSwitchingAccounts false) ;;
      ret (Rejected e)
  end.

(* --------------------------------------------------------------------- *)
(** *** The listener registered with [persisted.onUpdate] *)

Inductive ListenerCall : Type :=
| CallInitSession (account : SessionAccount)
| CallClearCurrentAccount.

(** The calls the listener makes, for the persisted record it reads and the
    state it closes over. *)
Definition onUpdateCalls (session : PersistedSession) (st : SessionState)
  : list ListenerCall :=
  match ps_currentAccount session with
  | Some persistedCurrent =>
      if negb (optStrEqb (Some (did persistedCurrent))
                         (didOf (currentAccount st)))
      then [CallInitSession persistedCurrent]
      else []
  | None =>
      match currentAccount st with
      | Some _ => [CallClearCurrentAccount]
      | None => []
      end
  end.

Definition runListenerCall (client : Client) (c : ListenerCall) : M unit :=
  match c with
  | CallInitSession account =>
      logDebug "session: switching account" ;;
      (* the promise of initSession is not awaited *)
      _ <- initSession account client ;;
      ret tt
  | CallClearCurrentAccount =>
      logDebug "session: logging out" ;;
      clearCurrentAccount
  end.

Fixpoint runListenerCalls (client : Client) (cs : list ListenerCall)
  : M unit :=
  match cs with
  | [] => ret tt
  | c :: rest => runListenerCall client c ;; runListenerCalls client rest
  end.

Definition onUpdateListener (session : PersistedSession) (client : Client)
  : M unit :=
  st <- getState ;;
  logDebug "session: onUpdate" ;;
  runListenerCalls client (onUpdateCalls session st).

(** The initial state of [Provider]. *)
Definition initialState (session : PersistedSession) : SessionState :=
  {| isInitialLoad := true;
     isSwitchingAccounts := false;
     accounts := ps_accounts session;
     currentAccount := None |}.

Definition initialWorld (session : PersistedSession) : World :=
  {| state := initialState session;
     globalAgent := PUBLIC_BSKY_AGENT;
     isDirty := false |}.

(* --------------------------------------------------------------------- *)
(** *** Sequences of operations *)

(** Everything that can happen to the provider: a call of the session API
    with the behaviour of the client it constructs, a persist-session event
    delivered by an agent whose handler captured [handlerAccount], or an
    update notified by the persistence layer. *)
Inductive Op : Type :=
| OpCreateAccount (props : CreateAccountProps) (client : Client)
| OpLogin (props : LoginProps) (client : Client)
| OpLogout
| OpClearCurrentAccount
| OpInitSession (account : SessionAccount) (client : Client)
| OpResumeSession (account : option SessionAccount) (client : Client)
| OpRemoveAccount (account : SessionAccount)
| OpSelectAccount (account : SessionAccount) (client : Client)
| OpUpdateCurrentAccount (account : AccountPatch)
| OpPersistSession (handlerAccount : SessionAccount) (event : string)
                   (session : option AtpSessionData)
| OpExternalUpdate (session : PersistedSession) (client : Client).

Definition runOp (op : Op) : M Outcome :=
  match op with
  | OpCreateAccount props client => createAccount props client
  | OpLogin props client => login props client
  | OpLogout => logout
  | OpClearCurrentAccount => clearCurrentAccount ;; ret Resolved
  | OpInitSession account client => initSession account client
  | OpResumeSession account client => resumeSession account client
  | OpRemoveAccount account => removeAccount account ;; ret Resolved
  | OpSelectAccount account client => selectAccount account client
  | OpUpdateCurrentAccount account =>
      updateCurrentAccount account ;; ret Resolved
  | OpPersistSession handlerAccount event session =>
      createPersistSessionHandler handlerAccount persistSessionCallback
        event session ;;
      ret Resolved
  | OpExternalUpdate session client =>
      onUpdateListener session client ;; ret Resolved
  end.

Fixpoint runOps (ops : list Op) : M unit :=
  match ops with
  | [] => ret tt
  | op :: rest => _ <- runOp op ;; runOps rest
  end.

(* --------------------------------------------------------------------- *)
(** *** What [initSession] does, read off the client's behaviour *)

(** The value [networkRetry retries] settles with when its callback is the
    client's resume call, starting at call number [attempt]. *)
Fixpoint retryResult (retries : nat) (client : Client) (attempt : nat)
    (lastErr : option ClientFailure) : Error + option AtpSessionData :=
  match retries with
  | O =>
      inl (match lastErr with
           | Some e => ClientError e
           | None => UndefinedError
           end)
  | S retries' =>
      match result (calls client attempt) with
      | Returned session => inr session
      | Threw e =>
          if isNetworkError e
          then retryResult retries' client (S attempt) (Some e)
          else inl (ClientError e)
      end
  end.

(** The persist-session events the client fires during the attempts that
    are made. *)
Fixpoint firedDuring (retries : nat) (client : Client) (attempt : nat)
  : list (string * option AtpSessionData) :=
  match retries with
  | O => []
  | S retries' =>
      fired (calls client attempt) ++
      match result (calls client attempt) with
      | Returned _ => []
      | Threw e =>
          if isNetworkError e
          then firedDuring retries' client (S attempt)
          else []
      end
  end.

(** The upserts the handler bound to [account] performs for a list of
    events. *)
Definition handlerUpdates (account : SessionAccount)
    (events : list (string * option AtpSessionData)) : list Updater :=
  map (fun ev => UpsertAccount (refreshedAccountOf account (snd ev))
                               (isExpiredEvent (fst ev)))
      events.

(* ===================================================================== *)
(** ** Properties of the roster *)
(* ===================================================================== *)

Definition dids (l : list SessionAccount) : list string := map did l.

(** At most one entry per distinct [did]. *)
Definition uniqueDids (s : SessionState) : Prop :=
  NoDup (dids (accounts s)).

Definition headDid (s : SessionState) : option string :=
  didOf (hd_error (accounts s)).

(** If [currentAccount] is set, an account with the same [did] is in
    [accounts]. *)
Definition currentInRoster (s : SessionState) : Prop :=
  forall c, currentAccount s = Some c -> In (did c) (dids (accounts s)).

(** The [did] an update activates: the account it puts at the head of the
    list, if it puts one there. *)
Definition activatedDid (u : Updater) (s : SessionState) : option string :=
  match u with
  | UpsertAccount account _ => Some (did account)
  | UpdateCurrentAccount _ => didOf (currentAccount s)
  | _ => None
  end.

(** The [did] activated last by a list of updates run from [s], [last]
    being the one activated before them. *)
Fixpoint mostRecentlyActivated (us : list Updater) (s : SessionState)
    (last : option string) : option string :=
  match us with
  | [] => last
  | u :: rest =>
      mostRecentlyActivated rest (applyUpdater u s)
        (match activatedDid u s with
         | Some d => Some d
         | None => last
         end)
  end.

(** No update of the list removes the [did] of the account that is current
    when the update runs. *)
Fixpoint neverRemovesCurrent (us : list Updater) (s : SessionState) : bool :=
  match us with
  | [] => true
  | u :: rest =>
      negb (match u, currentAccount s with
            | RemoveAccount account, Some c => String.eqb (did account) (did c)
            | _, _ => false
            end)
      && neverRemovesCurrent rest (applyUpdater u s)
  end.

Definition isSetInitialLoadFalseU (u : Updater) : bool :=
  match u with SetIsInitialLoad false => true | _ => false end.

(* ===================================================================== *)
(** ** Image model: upload dimensions *)
(* ===================================================================== *)

(** JavaScript numbers are modelled by exact rationals: pixel counts are
    integers, the multipliers are quotients of integers, and the functions
    below only multiply, divide and compare.  A JavaScript division by zero
    gives no rational; the theorems exclude it by hypothesis. *)

Inductive AspectRatio : Type :=
| Ratio4x3
| Ratio1x1
| Ratio3x4
| RatioNone.

Record Dimensions : Type := mkDimensions {
  width : Q;
  height : Q
}.

(** The fields of [ImageModel] the dimension computations read. *)
Record ImageModel : Type := mkImage {
  img_width : Q;
  img_height : Q
}.

Definition ratioMultipliers (this : ImageModel) (ar : AspectRatio) : Q :=
  match ar with
  | Ratio4x3 => (4 / 3)%Q
  | Ratio1x1 => 1%Q
  | Ratio3x4 => (3 / 4)%Q
  | RatioNone => (img_width this / img_height this)%Q
  end.

(** [x < y] on numbers. *)
Definition Qltb (x y : Q) : bool := negb (Qle_bool y x).

(** A default parameter [as = 'None']. *)
Definition orNone (ar : option AspectRatio) : AspectRatio :=
  match ar with
  | Some a => a
  | None => RatioNone
  end.

Definition getResizedDimensions (this : ImageModel)
    (ar : option AspectRatio) (maxSide : Q) : Dimensions :=
  let ratioMultiplier := ratioMultipliers this (orNone ar) in
  if Qeq_bool ratioMultiplier 1%Q then
    {| width := maxSide; height := maxSide |}
  else if Qltb ratioMultiplier 1%Q then
    {| width := (maxSide * ratioMultiplier)%Q; height := maxSide |}
  else
    {| width := maxSide; height := (maxSide / ratioMultiplier)%Q |}.

Section UploadDimensions.

(** [POST_IMG_MAX] of [lib/constants], which is not among the sources. *)
Variable POST_IMG_MAX : Dimensions.

Definition getUploadDimensions (this : ImageModel) (dimensions : Dimensions)
    (maxDimensions : option Dimensions) (ar : option AspectRatio)
  : Dimensions :=
  let maxDimensions :=
    match maxDimensions with Some m => m | None => POST_IMG_MAX end in
  if Qltb (width dimensions) (width maxDimensions)
     && Qltb (height dimensions) (height maxDimensions)
  then {| width := width dimensions; height := height dimensions |}
  else getResizedDimensions this ar (width POST_IMG_MAX).

End UploadDimensions.

(** The longer of the two sides. *)
Definition longerSide (d : Dimensions) : Q :=
  if Qle_bool (width d) (height d) then height d else width d.

(* ===================================================================== *)
(** ** Notions used by the statements, and sample data *)
(* ===================================================================== *)

(** The two halves of the ordering invariant: unique [did]s, and the [did]
    activated last, while it is in the list, is the head's. *)
Definition rosterInv (s : SessionState) (last : option string) : Prop :=
  uniqueDids s /\
  forall d, last = Some d -> In d (dids (accounts s)) -> headDid s = Some d.

(** The final state is the initial one run through the recorded updates. *)
Definition tracks {A : Type} (m : M A) : Prop :=
  forall w,
    state (worldOf (m w)) = applyUpdaters (updatesIn (effectsOf (m w))) (state w).

Definition finalState (ops : list Op) (w0 : World) : SessionState :=
  state (worldOf (runOps ops w0)).

(** The [did] activated last in a run of [ops] from [w0]. *)
Definition activatedLast (ops : list Op) (w0 : World) : option string :=
  mostRecentlyActivated (updatesIn (effectsOf (runOps ops w0))) (state w0) None.

(** No [removeAccount] of the run removes the then-current account. *)
Definition keepsCurrent (ops : list Op) (w0 : World) : bool :=
  neverRemovesCurrent (updatesIn (effectsOf (runOps ops w0))) (state w0).

(** Sample data. *)
Definition emptySession : PersistedSession :=
  {| ps_accounts := []; ps_currentAccount := None |}.

Definition aliceSession : AtpSessionData :=
  {| s_did := "did:1"; s_handle := "alice"; s_email := Some "alice@example.com";
     s_emailConfirmed := Some true; s_refreshJwt := "r1"; s_accessJwt := "a1" |}.

Definition bobSession : AtpSessionData :=
  {| s_did := "did:2"; s_handle := "bob"; s_email := Some "bob@example.com";
     s_emailConfirmed := None; s_refreshJwt := "r2"; s_accessJwt := "a2" |}.

Definition clientReturning (session : AtpSessionData) : Client :=
  {| serviceString := "https://bsky.social/";
     calls := fun _ => {| fired := []; result := Returned (Some session) |} |}.

Definition aliceAccount : SessionAccount :=
  freshAccountOf (clientReturning aliceSession) aliceSession.

Definition bobAccount : SessionAccount :=
  freshAccountOf (clientReturning bobSession) bobSession.

Definition loginOf (session : AtpSessionData) : Op :=
  OpLogin {| li_service := "https://bsky.social";
             li_identifier := s_handle session;
             li_password := "p" |}
          (clientReturning session).

(** What a computation run on the handler of [account] leaves behind: the
    handler's upserts for [events], and an untouched [__globalAgent]. *)
Definition handlerRun {A : Type} (account : SessionAccount)
    (events : list (string * option AtpSessionData))
    (r : A * World * list Effect) (w : World) : Prop :=
  updatesIn (effectsOf r) = handlerUpdates account events
  /\ globalAgent (worldOf r) = globalAgent w.

(** The state a failed [initSession] leaves: the one before the call, run
    through the upserts of the events the client fired meanwhile. *)
Definition afterFiredEvents (account : SessionAccount) (client : Client)
    (s : SessionState) : SessionState :=
  applyUpdaters (handlerUpdates account (firedDuring 3 client 0)) s.

(** The updates [initSession] makes and the value it settles with, by the
    outcome of the retried resume call. *)
Definition initSessionUpdates (account : SessionAccount) (client : Client)
  : list Updater :=
  handlerUpdates account (firedDuring 3 client 0)
  ++ match retryResult 3 client 0 None with
     | inr (Some session) =>
         [UpsertAccount (freshAccountOf client session) false]
     | _ => []
     end.

Definition initSessionOutcome (client : Client) : Outcome :=
  match retryResult 3 client 0 None with
  | inl e => Rejected e
  | inr None =>
      Rejected (EstablishmentError
                  "session: initSession failed to establish a session")
  | inr (Some _) => Resolved
  end.

Definition stateOfBobAfterAlice : World :=
  worldOf (runOps [loginOf aliceSession; loginOf bobSession]
                  (initialWorld emptySession)).

(** A client whose resume call finds the stored tokens expired: it reports
    the expiry to the persist-session handler and throws. *)
Definition expiredTokenClient : Client :=
  {| serviceString := "https://bsky.social/";
     calls := fun _ =>
       {| fired := [("expired", None)];
          result := Threw {| isNetworkError := false;
                             message := "Token has expired" |} |} |}.

(** A client that reports the expiry to the handler and then returns
    without a session. *)
Definition noSessionClient : Client :=
  {| serviceString := "https://bsky.social/";
     calls := fun _ =>
       {| fired := [("expired", None)]; result := Returned None |} |}.

Definition isEstablishmentError (o : Outcome) : Prop :=
  exists msg, o = Rejected (EstablishmentError msg).

Definition postImgMax2000 : Dimensions :=
  {| width := 2000%Q; height := 2000%Q |}.

Definition photo4032x3024 : ImageModel :=
  {| img_width := 4032%Q; img_height := 3024%Q |}.

(* ===================================================================== *)
(** ** The rest of the provider: context values, guards, persistence *)
(* ===================================================================== *)

(** [getAgent()] *)
Definition getAgent (w : World) : Agent := globalAgent w.

(** [hasSession: !!state.currentAccount] of [stateContext]. *)
Definition hasSession (s : SessionState) : bool :=
  match currentAccount s with
  | Some _ => true
  | None => false
  end.

(** What the callback returned by [useRequireAuth] does when invoked. *)
Inductive RequireAuthStep : Type :=
| CallFn
| CloseAll
| SetShowLoggedOut (b : bool).

Definition useRequireAuth (s : SessionState) : list RequireAuthStep :=
  if hasSession s then [CallFn] else [CloseAll; SetShowLoggedOut true].

(** The effect that flushes the state: when [isDirty.current] is set it
    clears it and calls [persisted.write('session', {accounts,
    currentAccount})]; the first component is the record written, if any. *)
Definition persistEffect (w : World) : option PersistedSession * World :=
  if isDirty w
  then (Some {| ps_accounts := accounts (state w);
                ps_currentAccount := currentAccount (state w) |},
        {| state := state w; globalAgent := globalAgent w; isDirty := false |})
  else (None, w).

(** The argument [initSession] passes to [agent.resumeSession]. *)
Record ResumeArgs : Type := mkResumeArgs {
  ra_accessJwt : string;
  ra_refreshJwt : string;
  ra_did : string;
  ra_handle : string
}.

Definition resumeSessionArgs (account : SessionAccount) : ResumeArgs :=
  {| ra_accessJwt := orStr (accessJwt account) "";
     ra_refreshJwt := orStr (refreshJwt account) "";
     ra_did := did account;
     ra_handle := handle account |}.

(** The updaters passed to plain [setState]: they touch the two flags only
    and do not mark the state dirty. *)
Definition isFlagUpdate (u : Updater) : bool :=
  match u with
  | SetIsInitialLoad _ | SetIsSwitchingAccounts _ => true
  | _ => false
  end.

(** An agent installed as [__globalAgent] is the public one or holds a
    session. *)
Definition agentHasSession (g : Agent) : Prop :=
  match g with
  | PUBLIC_BSKY_AGENT => True
  | BskyAgent _ session _ => session <> None
  end.

Definition isSessionLoaded (e : Effect) : bool :=
  match e with EmitSessionLoaded _ _ => true | _ => false end.

(** A relation between the world before a computation, the world after it
    and the effects it appended holds of every run of [m]. *)
Definition respects {A : Type} (R : World -> World -> list Effect -> Prop)
    (m : M A) : Prop :=
  forall w, R w (worldOf (m w)) (effectsOf (m w)).

(** The agent stays the public one or one with a session. *)
Definition keepsAgentSession (w w' : World) (es : list Effect) : Prop :=
  agentHasSession (globalAgent w) -> agentHasSession (globalAgent w').

(** A world that ends clean started clean and saw flag updates only. *)
Definition cleanOnlyByFlags (w w' : World) (es : list Effect) : Prop :=
  isDirty w' = false ->
  isDirty w = false /\ forallb isFlagUpdate (updatesIn es) = true.

(** Everything the handler bound to [account] does for a list of events. *)
Definition handlerEffects (account : SessionAccount)
    (events : list (string * option AtpSessionData)) : list Effect :=
  flat_map
    (fun ev =>
       LogDebug "session: BskyAgent.persistSession"
       :: (if isExpiredEvent (fst ev) then [EmitSessionDropped] else [])
       ++ [SetState (UpsertAccount (refreshedAccountOf account (snd ev))
                                   (isExpiredEvent (fst ev)))])
    events.

(** Everything [initSession] does, by the client's behaviour. *)
Definition initSessionEffects (account : SessionAccount) (client : Client)
  : list Effect :=
  LogDebug "session: initSession"
  :: handlerEffects account (firedDuring 3 client 0)
  ++ match retryResult 3 client 0 None with
     | inr (Some session) =>
         [QueryClientClear;
          SetState (UpsertAccount (freshAccountOf client session) false);
          EmitSessionLoaded (freshAccountOf client session)
            (BskyAgent (serviceString client) (Some session) (Some account))]
     | _ => []
     end.

(** The events of a list that the handler classifies as expired. *)
Definition expiredEvents (events : list (string * option AtpSessionData))
  : list (string * option AtpSessionData) :=
  filter (fun ev => isExpiredEvent (fst ev)) events.

(* ===================================================================== *)
(** ** Image model: attributes and manipulation *)
(* ===================================================================== *)

(** [Position] of the avatar editor. *)
Record Position : Type := mkPosition {
  pos_x : Q;
  pos_y : Q
}.

Record ImageManipulationAttributes : Type := mkAttributes {
  aspectRatio : option AspectRatio;
  rotate : option Q;
  scale : option Q;
  position : option Position;
  flipHorizontal : option bool;
  flipVertical : option bool
}.

(** [ActionCrop['crop']]: a rectangle. *)
Record CropRect : Type := mkCrop {
  originX : Q;
  originY : Q;
  crop_width : Q;
  crop_height : Q
}.

Inductive FlipType : Type :=
| Horizontal
| Vertical.

(** The actions handed to [ImageManipulator.manipulateAsync]. *)
Inductive Action : Type :=
| ActionFlip (flip : FlipType)
| ActionRotate (degrees : Q)
| ActionCrop (crop : CropRect)
| ActionResize (resize : Dimensions).

(** What [manipulateAsync] resolves with. *)
Record ImageResult : Type := mkImageResult {
  uri : string;
  r_width : Q;
  r_height : Q
}.

(** The object stored in [compressed] and [cropped]. *)
Record RNImage : Type := mkRNImage {
  i_mime : string;
  i_path : string;
  i_size : Q;
  i_uri : option string;
  i_width : Q;
  i_height : Q
}.

(** The observable fields of an [ImageModel] besides its dimensions. *)
Record ImageModelState : Type := mkImageState {
  model : ImageModel;
  path : string;
  altText : string;
  cropped : option RNImage;
  compressed : option RNImage;
  prev : option RNImage;
  attributes : ImageManipulationAttributes;
  prevAttributes : ImageManipulationAttributes
}.

(** Truthiness of a [boolean | undefined], and [!x]. *)
Definition truthyB (x : option bool) : bool :=
  match x with
  | Some true => true
  | _ => false
  end.

Definition notB (x : option bool) : option bool := Some (negb (truthyB x)).

(** The empty object [{}] as manipulation attributes. *)
Definition noAttributes : ImageManipulationAttributes :=
  {| aspectRatio := None; rotate := None; scale := None; position := None;
     flipHorizontal := None; flipVertical := None |}.

(** The attributes a freshly constructed model has. *)
Definition defaultAttributes : ImageManipulationAttributes :=
  {| aspectRatio := Some Ratio1x1; rotate := Some 0%Q; scale := Some 1%Q;
     position := None; flipHorizontal := Some false;
     flipVertical := Some false |}.

Definition withAttributes (this : ImageModelState)
    (a : ImageManipulationAttributes) : ImageModelState :=
  {| model := model this; path := path this; altText := altText this;
     cropped := cropped this; compressed := compressed this;
     prev := prev this; attributes := a;
     prevAttributes := prevAttributes this |}.

Definition setRatio (ar : option AspectRatio) (this : ImageModelState)
  : ImageModelState :=
  withAttributes this
    {| aspectRatio := ar;
       rotate := rotate (attributes this);
       scale := scale (attributes this);
       position := position (attributes this);
       flipHorizontal := flipHorizontal (attributes this);
       flipVertical := flipVertical (attributes this) |}.

Definition previous (this : ImageModelState) : ImageModelState :=
  {| model := model this; path := path this; altText := altText this;
     cropped := cropped this; compressed := prev this;
     prev := prev this; attributes := prevAttributes this;
     prevAttributes := prevAttributes this |}.

Section ImageManipulation.

Variable POST_IMG_MAX : Dimensions.

(** [getDataUriSize] of [lib/media/util], which is not among the sources. *)
Variable getDataUriSize : string -> Q.

(** The [modifiers] array [manipulate] builds. *)
Definition manipulateModifiers (this : ImageModelState)
    (crop : option CropRect) : list Action :=
  (if truthyB (flipHorizontal (attributes this))
   then [ActionFlip Horizontal] else [])
  ++ (if truthyB (flipVertical (attributes this))
      then [ActionFlip Vertical] else [])
  ++ (match rotate (attributes this) with
      | Some degrees => [ActionRotate degrees]
      | None => []
      end)
  ++ (match crop with
      | Some c =>
          [ActionCrop
             {| originX := (originX c * img_width (model this))%Q;
                originY := (originY c * img_height (model this))%Q;
                crop_height := (crop_height c * img_height (model this))%Q;
                crop_width := (crop_width c * img_width (model this))%Q |}]
      | None => []
      end).

(** [uploadWidth] and [uploadHeight] of [manipulate]. *)
Definition manipulateUploadDimensions (this : ImageModelState)
    (crop : option CropRect) (ar : option AspectRatio) : Dimensions :=
  match crop with
  | Some c =>
      getUploadDimensions POST_IMG_MAX (model this)
        {| width := (crop_width c * img_width (model this))%Q;
           height := (crop_height c * img_height (model this))%Q |}
        (Some POST_IMG_MAX) ar
  | None =>
      getUploadDimensions POST_IMG_MAX (model this)
        {| width := img_width (model this);
           height := img_height (model this) |}
        (Some POST_IMG_MAX) ar
  end.

(** The second argument of the call of [manipulateAsync]. *)
Definition manipulateActions (this : ImageModelState)
    (crop : option CropRect) (attrs : ImageManipulationAttributes)
  : list Action :=
  manipulateModifiers this crop
  ++ [ActionResize (manipulateUploadDimensions this crop (aspectRatio attrs))].

(** [this.attributes] after the three conditional assignments. *)
Definition manipulateAttributes (this : ImageModelState)
    (attrs : ImageManipulationAttributes) : ImageManipulationAttributes :=
  {| aspectRatio :=
       match aspectRatio attrs with
       | Some ar => Some ar
       | None => aspectRatio (attributes this)
       end;
     rotate := rotate (attributes this);
     scale :=
       match scale attrs with
       | Some sc => Some sc
       | None => scale (attributes this)
       end;
     position :=
       match position attrs with
       | Some p => Some p
       | None => position (attributes this)
       end;
     flipHorizontal := flipHorizontal (attributes this);
     flipVertical := flipVertical (attributes this) |}.

(** [manipulate(attributes)]: the actions sent to [manipulateAsync] and the
    model once the call has settled; [result] is what [manipulateAsync]
    resolves with, or [None] when it throws and [compressed] is not
    assigned. *)
Definition manipulate (this : ImageModelState) (crop : option CropRect)
    (attrs : ImageManipulationAttributes) (result : option ImageResult)
  : list Action * ImageModelState :=
  (manipulateActions this crop attrs,
   {| model := model this; path := path this; altText := altText this;
      cropped := cropped this;
      compressed :=
        match result with
        | Some res =>
            Some {| i_mime := "image/jpeg";
                    i_path := uri res;
                    i_size := getDataUriSize (uri res);
                    i_uri := Some (uri res);
                    i_width := r_width res;
                    i_height := r_height res |}
        | None => compressed this
        end;
      prev := prev this;
      attributes := manipulateAttributes this attrs;
      prevAttributes := prevAttributes this |}).

Definition setRotate (degrees : Q) (this : ImageModelState)
    (result : option ImageResult) : list Action * ImageModelState :=
  manipulate
    (withAttributes this
       {| aspectRatio := aspectRatio (attributes this);
          rotate := Some degrees;
          scale := scale (attributes this);
          position := position (attributes this);
          flipHorizontal := flipHorizontal (attributes this);
          flipVertical := flipVertical (attributes this) |})
    None noAttributes result.

Definition doFlipVertical (this : ImageModelState)
    (result : option ImageResult) : list Action * ImageModelState :=
  manipulate
    (withAttributes this
       {| aspectRatio := aspectRatio (attributes this);
          rotate := rotate (attributes this);
          scale := scale (attributes this);
          position := position (attributes this);
          flipHorizontal := flipHorizontal (attributes this);
          flipVertical := notB (flipVertical (attributes this)) |})
    None noAttributes result.

Definition doFlipHorizontal (this : ImageModelState)
    (result : option ImageResult) : list Action * ImageModelState :=
  manipulate
    (withAttributes this
       {| aspectRatio := aspectRatio (attributes this);
          rotate := rotate (attributes this);
          scale := scale (attributes this);
          position := position (attributes this);
          flipHorizontal := notB (flipHorizontal (attributes this));
          flipVertical := flipVertical (attributes this) |})
    None noAttributes result.

Definition resetCompressed (this : ImageModelState)
    (result : option ImageResult) : list Action * ImageModelState :=
  manipulate this None noAttributes result.

End ImageManipulation.

Definition isResize (a : Action) : bool :=
  match a with ActionResize _ => true | _ => false end.

(** The options [crop()] hands to [openCropper]. *)
Record CropperOptions : Type := mkCropperOptions {
  co_mediaType : string;
  co_path : string;
  co_freeStyleCropEnabled : bool;
  co_width : Q;
  co_height : Q
}.

Section Crop.

Variable POST_IMG_MAX : Dimensions.

(** [crop()]: the options of the call of [openCropper], the model once the
    call has settled, and the messages passed to [rootStore.log.error];
    [outcome] is the image [openCropper] resolves with, or [None] when it
    throws. *)
Definition crop (this : ImageModelState) (outcome : option RNImage)
  : CropperOptions * ImageModelState * list string :=
  let d := getUploadDimensions POST_IMG_MAX (model this)
             {| width := img_width (model this);
                height := img_height (model this) |} None None in
  ({| co_mediaType := "photo";
      co_path := path this;
      co_freeStyleCropEnabled := true;
      co_width := width d;
      co_height := height d |},
   match outcome with
   | Some c =>
       {| model := model this; path := path this; altText := altText this;
          cropped := Some c; compressed := Some c; prev := prev this;
          attributes := attributes this;
          prevAttributes := prevAttributes this |}
   | None => this
   end,
   match outcome with
   | Some _ => []
   | None => ["Failed to crop photo"]
   end).

End Crop.

(** A freshly constructed model of a 4032 x 3024 photo. *)
Definition samplePhoto : ImageModelState :=
  {| model := photo4032x3024; path := "file:///photo.jpg"; altText := "";
     cropped := None; compressed := None; prev := None;
     attributes := defaultAttributes; prevAttributes := noAttributes |}.

(* ===================================================================== *)
(** * Proofs: the roster under state updates *)
(* ===================================================================== *)

Section RosterLemmas.

Lemma in_dids_withoutDid (d x : string) (l : list SessionAccount) :
  In x (dids (withoutDid d l)) <-> In x (dids l) /\ x <> d.
Proof.
  unfold dids, withoutDid. induction l as [|a l IH]; simpl.
  - tauto.
  - destruct (String.eqb_spec (did a) d) as [E|E]; simpl.
    + rewrite IH. split.
      * intros [H1 H2]. auto.
      * intros [[H1|H1] H2]; [congruence | auto].
    + rewrite IH. split.
      * intros [H1|[H1 H2]]; [subst x; auto | auto].
      * intros [[H1|H1] H2]; auto.
Qed.

Lemma nodup_dids_withoutDid (d : string) (l : list SessionAccount) :
  NoDup (dids l) -> NoDup (dids (withoutDid d l)).
Proof.
  unfold dids, withoutDid. induction l as [|a l IH]; simpl; intros H.
  - constructor.
  - inversion H as [|x xs Hnotin Hnd]; subst.
    destruct (negb (String.eqb (did a) d)); simpl; auto.
    constructor; auto.
    intro Hin. apply Hnotin.
    apply (proj1 (in_dids_withoutDid d (did a) l)) in Hin. tauto.
Qed.

Lemma nodup_dids_upsert (a : SessionAccount) (l : list SessionAccount) :
  NoDup (dids l) -> NoDup (dids (a :: withoutDid (did a) l)).
Proof.
  intros H. change (NoDup (did a :: dids (withoutDid (did a) l))).
  constructor.
  - intro Hin. apply in_dids_withoutDid in Hin. tauto.
  - now apply nodup_dids_withoutDid.
Qed.

Lemma dids_stripTokens (l : list SessionAccount) :
  dids (map stripTokens l) = dids l.
Proof.
  unfold dids. rewrite map_map. apply map_ext. reflexivity.
Qed.

Lemma hd_error_stripTokens (l : list SessionAccount) :
  didOf (hd_error (map stripTokens l)) = didOf (hd_error l).
Proof. destruct l; reflexivity. Qed.

(** Removing another [did] keeps the head when the head's [did] is kept. *)
Lemma head_withoutDid (d x : string) (l : list SessionAccount) :
  didOf (hd_error l) = Some x -> x <> d ->
  didOf (hd_error (withoutDid d l)) = Some x.
Proof.
  destruct l as [|a l]; simpl; [discriminate|].
  intros H Hne. injection H as H. subst x.
  unfold withoutDid. simpl.
  destruct (String.eqb_spec (did a) d); [contradiction | reflexivity].
Qed.

End RosterLemmas.

Lemma rosterInv_step (u : Updater) (s : SessionState) (last : option string) :
  rosterInv s last ->
  rosterInv (applyUpdater u s)
            (match activatedDid u s with Some d => Some d | None => last end).
Proof.
  unfold rosterInv, uniqueDids, headDid. intros [Hnd Hhead].
  destruct u as [a e| | |a|p|b|b]; simpl.
  - split; [now apply nodup_dids_upsert|].
    intros d Hd _. exact Hd.
  - auto.
  - rewrite dids_stripTokens, hd_error_stripTokens. auto.
  - split; [now apply nodup_dids_withoutDid|].
    intros d Hd Hin. apply in_dids_withoutDid in Hin. destruct Hin as [Hin Hne].
    apply head_withoutDid; auto.
  - destruct (currentAccount s) as [c|]; simpl; [|auto].
    split; [exact (nodup_dids_upsert (patchAccount c p) (accounts s) Hnd)|].
    intros d Hd _. exact Hd.
  - auto.
  - auto.
Qed.

(** The invariant is kept by every single update, hence by every list of
    updates, in whatever order asynchronous operations interleave them. *)
Lemma rosterInv_run (us : list Updater) :
  forall s last,
    rosterInv s last ->
    rosterInv (applyUpdaters us s) (mostRecentlyActivated us s last).
Proof.
  induction us as [|u us IH]; intros s last H; simpl.
  - exact H.
  - apply IH. now apply rosterInv_step.
Qed.

Lemma currentInRoster_step (u : Updater) (s : SessionState) :
  neverRemovesCurrent [u] s = true ->
  currentInRoster s -> currentInRoster (applyUpdater u s).
Proof.
  unfold currentInRoster. intros Hg H.
  destruct u as [a e| | |a|p|b|b]; simpl in *.
  - intros c Hc. destruct e; [discriminate|]. injection Hc as Hc. subst c.
    left. reflexivity.
  - discriminate.
  - intros c Hc. rewrite dids_stripTokens. auto.
  - intros c Hc. rewrite Hc in Hg. apply in_dids_withoutDid. split; auto.
    destruct (String.eqb_spec (did a) (did c)); [discriminate | congruence].
  - destruct (currentAccount s) as [c0|] eqn:E; simpl; [|rewrite E; auto].
    intros c Hc. injection Hc as Hc. subst c. left. reflexivity.
  - auto.
  - auto.
Qed.

Lemma currentInRoster_run (us : list Updater) :
  forall s,
    neverRemovesCurrent us s = true ->
    currentInRoster s -> currentInRoster (applyUpdaters us s).
Proof.
  induction us as [|u us IH]; intros s Hg H; simpl.
  - exact H.
  - simpl in Hg. apply andb_prop in Hg. destruct Hg as [Hu Hrest].
    apply IH; auto. apply currentInRoster_step; auto.
    simpl. rewrite Hu. reflexivity.
Qed.

(* ===================================================================== *)
(** * Proofs: computations change the state only through [setState] *)
(* ===================================================================== *)

Lemma updatesIn_app (es1 es2 : list Effect) :
  updatesIn (es1 ++ es2) = updatesIn es1 ++ updatesIn es2.
Proof.
  induction es1 as [|e es1 IH]; simpl; [reflexivity|].
  destruct e; simpl; rewrite IH; reflexivity.
Qed.

Lemma applyUpdaters_app (us1 us2 : list Updater) (s : SessionState) :
  applyUpdaters (us1 ++ us2) s = applyUpdaters us2 (applyUpdaters us1 s).
Proof. unfold applyUpdaters. apply fold_left_app. Qed.

Lemma tracks_ret {A : Type} (a : A) : tracks (ret a).
Proof. intro w. reflexivity. Qed.

Lemma tracks_bind {A B : Type} (m : M A) (f : A -> M B) :
  tracks m -> (forall a, tracks (f a)) -> tracks (bind m f).
Proof.
  intros Hm Hf w. unfold bind.
  specialize (Hm w). destruct (m w) as [[a w1] es1].
  specialize (Hf a w1). destruct (f a w1) as [[b w2] es2].
  unfold worldOf, effectsOf in *. simpl in *.
  rewrite updatesIn_app, applyUpdaters_app, <- Hm. exact Hf.
Qed.

Lemma tracks_setState (u : Updater) : tracks (setState u).
Proof. intro w. reflexivity. Qed.

Lemma tracks_setStateAndPersist (u : Updater) : tracks (setStateAndPersist u).
Proof. intro w. reflexivity. Qed.

Lemma tracks_setGlobalAgent (a : Agent) : tracks (setGlobalAgent a).
Proof. intro w. reflexivity. Qed.

Lemma tracks_getState : tracks getState.
Proof. intro w. reflexivity. Qed.

Lemma tracks_logDebug (msg : string) : tracks (logDebug msg).
Proof. intro w. reflexivity. Qed.

Lemma tracks_logError (msg : string) : tracks (logError msg).
Proof. intro w. reflexivity. Qed.

Lemma tracks_emitSessionDropped : tracks emitSessionDropped.
Proof. intro w. reflexivity. Qed.

Lemma tracks_emitSessionLoaded (a : SessionAccount) (g : Agent) :
  tracks (emitSessionLoaded a g).
Proof. intro w. reflexivity. Qed.

Lemma tracks_queryClientClear : tracks queryClientClear.
Proof. intro w. reflexivity. Qed.

Create HintDb tracks.
#[local] Hint Resolve tracks_ret tracks_bind tracks_setState
  tracks_setStateAndPersist tracks_setGlobalAgent tracks_getState
  tracks_logDebug tracks_logError tracks_emitSessionDropped
  tracks_emitSessionLoaded tracks_queryClientClear : tracks.

Ltac tracks_step :=
  first
    [ apply tracks_ret | apply tracks_setState
    | apply tracks_setStateAndPersist | apply tracks_setGlobalAgent
    | apply tracks_getState | apply tracks_logDebug | apply tracks_logError
    | apply tracks_emitSessionDropped | apply tracks_emitSessionLoaded
    | apply tracks_queryClientClear
    | apply tracks_bind; [| intro ]
    | match goal with
      | |- tracks (match ?x with _ => _ end) => destruct x
      | |- tracks (if ?x then _ else _) => destruct x
      end ].

Ltac tracks_auto := repeat (tracks_step; auto with tracks).

Lemma tracks_upsertAccount (a : SessionAccount) (e : bool) :
  tracks (upsertAccount a e).
Proof. unfold upsertAccount. tracks_auto. Qed.

Lemma tracks_persistSession (account : SessionAccount) (event : string)
    (session : option AtpSessionData) :
  tracks (createPersistSessionHandler account persistSessionCallback
            event session).
Proof.
  unfold createPersistSessionHandler, persistSessionCallback, upsertAccount.
  tracks_auto.
Qed.

Lemma tracks_fire (h : PersistSessionHandler) events :
  (forall ev s, tracks (h ev s)) -> tracks (fire h events).
Proof.
  intros Hh. induction events as [|[ev s] rest IH]; simpl.
  - apply tracks_ret.
  - apply tracks_bind; auto.
Qed.

Lemma tracks_agentCall (h : option PersistSessionHandler) (c : ClientCall) :
  (forall h', h = Some h' -> forall ev s, tracks (h' ev s)) ->
  tracks (agentCall h c).
Proof.
  intros Hh. unfold agentCall. apply tracks_bind.
  - destruct h as [h'|]; [apply tracks_fire; eauto | apply tracks_ret].
  - intros _. apply tracks_ret.
Qed.

Lemma tracks_networkRetry (retries : nat) (fn : nat -> M CallResult) :
  (forall i, tracks (fn i)) ->
  forall attempt lastErr, tracks (networkRetry retries fn attempt lastErr).
Proof.
  intros Hfn. induction retries as [|r IH]; intros attempt lastErr; simpl.
  - apply tracks_ret.
  - apply tracks_bind; [apply Hfn|].
    intros [session|e]; [apply tracks_ret|].
    destruct (isNetworkError e); [apply IH | apply tracks_ret].
Qed.

Lemma tracks_initSession (account : SessionAccount) (client : Client) :
  tracks (initSession account client).
Proof.
  unfold initSession. apply tracks_bind; [apply tracks_logDebug|]. intros _.
  apply tracks_bind.
  - apply tracks_networkRetry. intros i. apply tracks_agentCall.
    intros h' Hh' ev s. injection Hh' as Hh'. subst h'.
    apply tracks_persistSession.
  - intros [e|[session|]]; unfold upsertAccount; tracks_auto.
Qed.

Lemma tracks_clearCurrentAccount : tracks clearCurrentAccount.
Proof. unfold clearCurrentAccount. tracks_auto. Qed.

Lemma tracks_runOp (op : Op) : tracks (runOp op).
Proof.
  destruct op; simpl.
  - unfold createAccount, agentCall, upsertAccount. tracks_auto.
  - unfold login, agentCall, upsertAccount. tracks_auto.
  - unfold logout. apply tracks_bind; [apply tracks_clearCurrentAccount|].
    intros _. tracks_auto.
  - apply tracks_bind; [apply tracks_clearCurrentAccount|].
    intros _. apply tracks_ret.
  - apply tracks_initSession.
  - unfold resumeSession. apply tracks_bind.
    + destruct account; [apply tracks_initSession | apply tracks_ret].
    + intros r. tracks_auto.
  - unfold removeAccount. tracks_auto.
  - unfold selectAccount. apply tracks_bind; [apply tracks_setState|].
    intros _. apply tracks_bind; [apply tracks_initSession|].
    intros r. tracks_auto.
  - unfold updateCurrentAccount. tracks_auto.
  - apply tracks_bind; [apply tracks_persistSession | intros _; apply tracks_ret].
  - apply tracks_bind; [| intros _; apply tracks_ret].
    unfold onUpdateListener. apply tracks_bind; [apply tracks_getState|].
    intros st. apply tracks_bind; [apply tracks_logDebug|]. intros _.
    generalize (onUpdateCalls session st). intros cs.
    induction cs as [|c cs IH]; simpl; [apply tracks_ret|].
    apply tracks_bind; [| intros _; exact IH].
    destruct c; simpl.
    + apply tracks_bind; [apply tracks_logDebug|]. intros _.
      apply tracks_bind; [apply tracks_initSession | intros _; apply tracks_ret].
    + apply tracks_bind; [apply tracks_logDebug|]. intros _.
      apply tracks_clearCurrentAccount.
Qed.

Lemma tracks_runOps (ops : list Op) : tracks (runOps ops).
Proof.
  induction ops as [|op ops IH]; simpl.
  - apply tracks_ret.
  - apply tracks_bind; [apply tracks_runOp | intros _; exact IH].
Qed.

(* ===================================================================== *)
(** * Sequences of operations: the roster invariants *)
(* ===================================================================== *)




(** C2, counterexample: after [login] as alice and [removeAccount(alice)],
    [currentAccount] is still alice while the roster is empty. *)
Lemma C2_removeAccount_of_current_breaks_invariant :
  currentInRoster (finalState [loginOf aliceSession] (initialWorld emptySession))
  /\ ~ currentInRoster
         (finalState [loginOf aliceSession; OpRemoveAccount aliceAccount]
                     (initialWorld emptySession)).
Proof.
  split.
  - intros c Hc. vm_compute in Hc. injection Hc as Hc. subst c.
    vm_compute. left. reflexivity.
  - intro H. specialize (H aliceAccount eq_refl). vm_compute in H. exact H.
Qed.

(** C2 (amended): for every sequence of session operations run from a state
    where [currentAccount], if set, is in the roster, and in which no
    [removeAccount] removes the [did] of the account that is current when it
    runs, the resulting [currentAccount], if set, has an account with the
    same [did] in the roster; [removeAccount] of any other [did] preserves
    the invariant. *)
Theorem C2_current_in_roster (ops : list Op) (w0 : World) :
  currentInRoster (state w0) ->
  keepsCurrent ops w0 = true ->
  currentInRoster (finalState ops w0).
Proof.
  intros H0 Hg. unfold finalState, keepsCurrent in *.
  rewrite (tracks_runOps ops w0).
  now apply currentInRoster_run.
Qed.

Lemma C2_witness :
  currentInRoster
    (finalState [loginOf aliceSession; loginOf bobSession;
                 OpRemoveAccount aliceAccount;
                 OpUpdateCurrentAccount
                   {| p_handle := Some "bobby"; p_email := None;
                      p_emailConfirmed := Some true |}]
                (initialWorld emptySession)).
Proof.
  apply C2_current_in_roster.
  - intros c Hc. discriminate Hc.
  - reflexivity.
Defined.

(* ===================================================================== *)
(** * The persist-session handler *)
(* ===================================================================== *)

Lemma bind_value {A B : Type} (m : M A) (f : A -> M B) (w : World) :
  valueOf (bind m f w) = valueOf (f (valueOf (m w)) (worldOf (m w))).
Proof.
  unfold bind, valueOf, worldOf.
  destruct (m w) as [[a w1] es1]. simpl.
  destruct (f a w1) as [[b w2] es2]. reflexivity.
Qed.

Lemma bind_world {A B : Type} (m : M A) (f : A -> M B) (w : World) :
  worldOf (bind m f w) = worldOf (f (valueOf (m w)) (worldOf (m w))).
Proof.
  unfold bind, valueOf, worldOf.
  destruct (m w) as [[a w1] es1]. simpl.
  destruct (f a w1) as [[b w2] es2]. reflexivity.
Qed.

Lemma bind_effects {A B : Type} (m : M A) (f : A -> M B) (w : World) :
  effectsOf (bind m f w)
  = effectsOf (m w) ++ effectsOf (f (valueOf (m w)) (worldOf (m w))).
Proof.
  unfold bind, valueOf, worldOf, effectsOf.
  destruct (m w) as [[a w1] es1]. simpl.
  destruct (f a w1) as [[b w2] es2]. reflexivity.
Qed.

(** One delivery of an event to the handler: the record it forwards, the
    notification, and the resulting state. *)
Lemma persistSession_run (account : SessionAccount) (event : string)
    (session : option AtpSessionData) (w : World) :
  createPersistSessionHandler account persistSessionCallback event session w
  = (tt,
     {| state := applyUpdater
                   (UpsertAccount (refreshedAccountOf account session)
                                  (isExpiredEvent event))
                   (state w);
        globalAgent := globalAgent w;
        isDirty := true |},
     LogDebug "session: BskyAgent.persistSession"
     :: (if isExpiredEvent event then [EmitSessionDropped] else [])
     ++ [SetState (UpsertAccount (refreshedAccountOf account session)
                                 (isExpiredEvent event))]).
Proof.
  unfold createPersistSessionHandler, persistSessionCallback, upsertAccount.
  destruct (isExpiredEvent event); reflexivity.
Qed.

(** C3, counterexample: the handler bound to alice's account (tokens [a1]
    and [r1]) receives ["expired"] without a session; the record it forwards
    to the upsert has no tokens instead of alice's prior ones. *)
Lemma C3_no_token_fallback :
  updatesIn
    (effectsOf
       (createPersistSessionHandler aliceAccount persistSessionCallback
          "expired" None (initialWorld emptySession)))
  = [UpsertAccount (stripTokens aliceAccount) true]
  /\ accessJwt (stripTokens aliceAccount) <> accessJwt aliceAccount
  /\ refreshJwt (stripTokens aliceAccount) <> refreshJwt aliceAccount.
Proof.
  split; [reflexivity|]. split; discriminate.
Qed.

(** C3 (amended): for every invocation of the persist-session handler, the
    record forwarded to the upsert carries the tokens of the new session
    when the client provides a session and no tokens when it provides none;
    it is the [did], [handle], [email] and [emailConfirmed] fields that fall
    back to the prior account's values. *)
Theorem C3_reconciled_account (account : SessionAccount) (event : string)
    (session : option AtpSessionData) (w : World) :
  updatesIn
    (effectsOf
       (createPersistSessionHandler account persistSessionCallback
          event session w))
  = [UpsertAccount (refreshedAccountOf account session) (isExpiredEvent event)]
  /\ accessJwt (refreshedAccountOf account session)
     = option_map s_accessJwt session
  /\ refreshJwt (refreshedAccountOf account session)
     = option_map s_refreshJwt session
  /\ refreshedAccountOf account None = stripTokens account.
Proof.
  rewrite persistSession_run. unfold effectsOf. simpl.
  repeat split. destruct (isExpiredEvent event); reflexivity.
Qed.

Lemma isExpiredEvent_spec (event : string) :
  isExpiredEvent event = true <-> event <> "create" /\ event <> "update".
Proof.
  unfold isExpiredEvent.
  destruct (String.eqb_spec event "create") as [E1|E1];
    destruct (String.eqb_spec event "update") as [E2|E2]; simpl;
    split; try discriminate; try tauto; intros [H1 H2]; contradiction.
Qed.

(** C4: the handler's [expired] flag is true exactly when the event is
    neither ["create"] nor ["update"]; the flag is the one passed to the
    upsert; when it is true the upsert leaves [currentAccount] unset while
    the reconciled account (with the refreshed handle and email) is in the
    roster, at its head; and the session-dropped notification is emitted
    once for such an event and not at all otherwise. *)
Theorem C4_expired_event (account : SessionAccount) (event : string)
    (session : option AtpSessionData) (w : World) :
  let r := createPersistSessionHandler account persistSessionCallback
             event session w in
  let refreshed := refreshedAccountOf account session in
  (isExpiredEvent event = true <-> event <> "create" /\ event <> "update")
  /\ updatesIn (effectsOf r) = [UpsertAccount refreshed (isExpiredEvent event)]
  /\ countEffects isSessionDropped (effectsOf r)
     = (if isExpiredEvent event then 1 else 0)
  /\ currentAccount (state (worldOf r))
     = (if isExpiredEvent event then None else Some refreshed)
  /\ hd_error (accounts (state (worldOf r))) = Some refreshed
  /\ handle refreshed = orStr (option_map s_handle session) (handle account)
  /\ email refreshed
     = orOptStr (match session with Some s => s_email s | None => None end)
                (email account).
Proof.
  intros r refreshed. subst r refreshed. rewrite persistSession_run.
  split; [apply isExpiredEvent_spec|].
  unfold effectsOf, worldOf, countEffects. simpl.
  destruct (isExpiredEvent event); simpl; repeat split; reflexivity.
Qed.

(* ===================================================================== *)
(** * Partial and full logout *)
(* ===================================================================== *)

Lemma stripTokens_no_tokens (l : list SessionAccount) :
  Forall (fun a => accessJwt a = None /\ refreshJwt a = None)
         (map stripTokens l).
Proof.
  induction l as [|a l IH]; simpl; constructor; auto.
Qed.

(** C5: [clearCurrentAccount] leaves the accounts list as it is (hence its
    membership and every stored token), unsets [currentAccount] and makes
    the public agent the active one; [logout], from every state, resolves
    with [currentAccount] unset and with the roster made of the same
    accounts, in the same order, each with [accessJwt] and [refreshJwt]
    absent. *)
Theorem C5_clear_and_logout (w : World) :
  let c := clearCurrentAccount w in
  let l := logout w in
  accounts (state (worldOf c)) = accounts (state w)
  /\ currentAccount (state (worldOf c)) = None
  /\ globalAgent (worldOf c) = PUBLIC_BSKY_AGENT
  /\ valueOf l = Resolved
  /\ currentAccount (state (worldOf l)) = None
  /\ accounts (state (worldOf l)) = map stripTokens (accounts (state w))
  /\ dids (accounts (state (worldOf l))) = dids (accounts (state w))
  /\ Forall (fun a => accessJwt a = None /\ refreshJwt a = None)
            (accounts (state (worldOf l))).
Proof.
  intros c l. subst c l.
  unfold logout, clearCurrentAccount, worldOf, valueOf; simpl.
  repeat split.
  - apply dids_stripTokens.
  - apply stripTokens_no_tokens.
Qed.

(* ===================================================================== *)
(** * [initSession] and the operations built on it *)
(* ===================================================================== *)

Lemma fire_handler (account : SessionAccount) events :
  forall w,
    handlerRun account events
      (fire (createPersistSessionHandler account persistSessionCallback)
            events w) w.
Proof.
  unfold handlerRun, effectsOf, worldOf.
  induction events as [|[ev s] rest IH]; intros w; simpl.
  - split; reflexivity.
  - unfold bind. rewrite persistSession_run.
    match goal with
    | |- context [fire ?h rest ?w1] =>
        specialize (IH w1); destruct (fire h rest w1) as [[u w2] es2]
    end.
    simpl in *. destruct IH as [H1 H2]. rewrite H2. split; [|reflexivity].
    destruct (isExpiredEvent ev); simpl; rewrite H1; reflexivity.
Qed.

Lemma agentCall_handler (account : SessionAccount) (c : ClientCall) (w : World) :
  let r := agentCall
             (Some (createPersistSessionHandler account persistSessionCallback))
             c w in
  valueOf r = result c /\ handlerRun account (fired c) r w.
Proof.
  cbn zeta. pose proof (fire_handler account (fired c) w) as H.
  unfold agentCall, bind, handlerRun, valueOf, effectsOf, worldOf in *.
  destruct (fire _ (fired c) w) as [[u w1] es1].
  simpl in *. rewrite app_nil_r. tauto.
Qed.

Lemma handlerUpdates_app (account : SessionAccount) evs1 evs2 :
  handlerUpdates account (evs1 ++ evs2)
  = handlerUpdates account evs1 ++ handlerUpdates account evs2.
Proof. unfold handlerUpdates. apply map_app. Qed.

Lemma networkRetry_handler (account : SessionAccount) (client : Client)
    (retries : nat) :
  forall attempt lastErr w,
    let r := networkRetry retries
               (fun i =>
                  agentCall
                    (Some (createPersistSessionHandler account
                             persistSessionCallback))
                    (calls client i))
               attempt lastErr w in
    valueOf r = retryResult retries client attempt lastErr
    /\ handlerRun account (firedDuring retries client attempt) r w.
Proof.
  induction retries as [|n IH]; intros attempt lastErr w; cbn zeta.
  - simpl. unfold handlerRun. repeat split.
  - cbn [networkRetry retryResult firedDuring].
    pose proof (agentCall_handler account (calls client attempt) w) as Hc.
    cbn zeta in Hc. unfold bind.
    destruct (agentCall _ (calls client attempt) w) as [[res w1] es1].
    unfold handlerRun, valueOf, effectsOf, worldOf in Hc. simpl in Hc.
    destruct Hc as [Hv [Hu Hg]]. subst res.
    destruct (result (calls client attempt)) as [session|e].
    + unfold handlerRun, valueOf, effectsOf, worldOf. simpl.
      rewrite !app_nil_r. auto.
    + destruct (isNetworkError e).
      * specialize (IH (S attempt) (Some e) w1). cbn zeta in IH.
        destruct (networkRetry n _ (S attempt) (Some e) w1) as [[v w2] es2].
        unfold handlerRun, valueOf, effectsOf, worldOf in *. simpl in *.
        destruct IH as [Hv' [Hu' Hg']].
        rewrite updatesIn_app, handlerUpdates_app, Hu, Hu', Hg', Hg. auto.
      * unfold handlerRun, valueOf, effectsOf, worldOf. simpl.
        rewrite !app_nil_r. auto.
Qed.

(** The error [networkRetry] surfaces is the client's, never the
    provider's own establishment error. *)
Lemma retryResult_not_establishment (client : Client) (retries : nat) :
  forall attempt lastErr msg,
    retryResult retries client attempt lastErr <> inl (EstablishmentError msg).
Proof.
  induction retries as [|n IH]; intros attempt lastErr msg; simpl.
  - destruct lastErr; discriminate.
  - destruct (result (calls client attempt)) as [s|e]; [discriminate|].
    destruct (isNetworkError e); [apply IH | discriminate].
Qed.

Lemma initSession_run (account : SessionAccount) (client : Client) (w : World) :
  let r := initSession account client w in
  valueOf r = initSessionOutcome client
  /\ updatesIn (effectsOf r) = initSessionUpdates account client
  /\ state (worldOf r) = applyUpdaters (initSessionUpdates account client) (state w)
  /\ globalAgent (worldOf r)
     = match retryResult 3 client 0 None with
       | inr (Some session) =>
           BskyAgent (serviceString client) (Some session) (Some account)
       | _ => globalAgent w
       end.
Proof.
  cbn zeta. rewrite (tracks_initSession account client w).
  pose proof (networkRetry_handler account client 3 0 None w) as Hn.
  cbn zeta in Hn. unfold initSessionOutcome, initSessionUpdates.
  remember (retryResult 3 client 0 None) as rr eqn:Hrr.
  remember (firedDuring 3 client 0) as evs eqn:Hevs.
  unfold initSession, bind, logDebug, effect.
  destruct (networkRetry 3 _ 0 None w) as [[v w1] es1].
  unfold handlerRun, valueOf, effectsOf, worldOf in *.
  cbn [fst snd] in Hn. destruct Hn as [Hv [Hu Hg]]. subst v.
  destruct rr as [e|[session|]]; cbn.
  - rewrite !app_nil_r, Hu. auto.
  - rewrite updatesIn_app, Hu. cbn. auto.
  - rewrite !app_nil_r, Hu. auto.
Qed.

(** The handler's upserts do not read or write the two flags. *)
Lemma handlerUpdates_flags (account : SessionAccount) events :
  forall s b1 b2,
    applyUpdaters (handlerUpdates account events)
      {| isInitialLoad := b1; isSwitchingAccounts := b2;
         accounts := accounts s; currentAccount := currentAccount s |}
    = {| isInitialLoad := b1; isSwitchingAccounts := b2;
         accounts :=
           accounts (applyUpdaters (handlerUpdates account events) s);
         currentAccount :=
           currentAccount (applyUpdaters (handlerUpdates account events) s) |}.
Proof.
  induction events as [|[ev ss] rest IH]; intros s b1 b2.
  - reflexivity.
  - cbn [handlerUpdates map applyUpdaters fold_left fst snd].
    change (fold_left (fun acc u => applyUpdater u acc)
              (map (fun ev0 => UpsertAccount
                                 (refreshedAccountOf account (snd ev0))
                                 (isExpiredEvent (fst ev0))) rest))
      with (applyUpdaters (handlerUpdates account rest)).
    cbn [applyUpdater isInitialLoad isSwitchingAccounts accounts currentAccount].
    exact (IH (applyUpdater
                 (UpsertAccount (refreshedAccountOf account ss)
                                (isExpiredEvent ev)) s) b1 b2).
Qed.



Lemma initSessionUpdates_no_initial_load (a : SessionAccount) (client : Client) :
  filter isSetInitialLoadFalseU (initSessionUpdates a client) = [].
Proof.
  unfold initSessionUpdates, handlerUpdates. rewrite filter_app.
  assert (H1 : forall evs,
    filter isSetInitialLoadFalseU
      (map (fun ev => UpsertAccount (refreshedAccountOf a (snd ev))
                                    (isExpiredEvent (fst ev))) evs) = []).
  { induction evs as [|ev evs IH]; simpl; auto. }
  rewrite H1. destruct (retryResult 3 client 0 None) as [e|[session|]];
    reflexivity.
Qed.

Lemma resumeSession_some (a : SessionAccount) (client : Client) (w : World) :
  let r := resumeSession (Some a) client w in
  valueOf r = Resolved
  /\ isInitialLoad (state (worldOf r)) = false
  /\ length (filter isSetInitialLoadFalseU (updatesIn (effectsOf r))) = 1
  /\ (forall e,
        valueOf (initSession a client w) = Rejected e ->
        In (LogError "session: resumeSession failed") (effectsOf r)).
Proof.
  cbn zeta. unfold resumeSession, bind, setState.
  pose proof (initSession_run a client w) as Hi.
  pose proof (initSessionUpdates_no_initial_load a client) as Hnone.
  destruct (initSession a client w) as [[v w1] es1].
  cbn zeta in Hi. unfold valueOf, effectsOf, worldOf in *.
  cbn [fst snd] in *. destruct Hi as [_ [Hu _]]. rewrite <- Hu in Hnone.
  destruct v as [|e]; cbn; rewrite ?app_nil_r;
    rewrite ?updatesIn_app, ?filter_app, ?Hnone; cbn; repeat split;
    try (intros e0 He0; discriminate He0).
  intros e0 _. rewrite !in_app_iff. simpl. tauto.
Qed.

(** C7: [resumeSession] always resolves (a failure of [initSession] is
    logged, not propagated), leaves [isInitialLoad] false, and makes the
    update that clears [isInitialLoad] exactly once, whether an account is
    supplied or not and whatever the client does. *)
Theorem C7_resumeSession (account : option SessionAccount) (client : Client)
    (w : World) :
  let r := resumeSession account client w in
  valueOf r = Resolved
  /\ isInitialLoad (state (worldOf r)) = false
  /\ length (filter isSetInitialLoadFalseU (updatesIn (effectsOf r))) = 1
  /\ (forall a e,
        account = Some a ->
        valueOf (initSession a client w) = Rejected e ->
        In (LogError "session: resumeSession failed") (effectsOf r)).
Proof.
  cbn zeta. destruct account as [a|].
  - destruct (resumeSession_some a client w) as [H1 [H2 [H3 H4]]].
    repeat split; auto.
    intros a0 e Ha. injection Ha as Ha. subst a0. apply H4.
  - cbn. repeat split. intros a e Ha. discriminate Ha.
Qed.

(* ===================================================================== *)
(** * Establishment errors *)
(* ===================================================================== *)

(** C8, counterexample: bob is current; [initSession(alice)] with a client
    that delivers an ["expired"] event to the pre-registered handler and
    then returns without a session.  The call throws the establishment
    error, and [currentAccount] has changed on the way (it is unset). *)
Lemma C8_initSession_error_path_changes_state :
  let r := initSession aliceAccount noSessionClient stateOfBobAfterAlice in
  isEstablishmentError (valueOf r)
  /\ ~ (currentAccount (state (worldOf r))
          = currentAccount (state stateOfBobAfterAlice)
        /\ accounts (state (worldOf r))
          = accounts (state stateOfBobAfterAlice)).
Proof.
  cbn zeta. split.
  - eexists. vm_compute. reflexivity.
  - intros [H _]. vm_compute in H. discriminate H.
Qed.

(** C8 (amended): each of [createAccount], [login] and [initSession] throws
    an establishment error exactly when the client's create, login or
    (retried) resume call returns without error and the client then reports
    no session.  On that path, and on every other failing path,
    [createAccount] and [login] leave the whole world, hence [accounts] and
    [currentAccount], unchanged; [initSession] leaves [__globalAgent]
    unchanged and changes the state only by the upserts of the
    persist-session events the client fired during the resume call:
    unchanged when it fired none. *)
Theorem C8_establishment_errors (caProps : CreateAccountProps)
    (liProps : LoginProps) (account : SessionAccount) (client : Client)
    (w : World) :
  let c := createAccount caProps client w in
  let l := login liProps client w in
  let i := initSession account client w in
  (isEstablishmentError (valueOf c) <-> result (calls client 0) = Returned None)
  /\ (valueOf c <> Resolved -> worldOf c = w)
  /\ (isEstablishmentError (valueOf l) <-> result (calls client 0) = Returned None)
  /\ (valueOf l <> Resolved -> worldOf l = w)
  /\ (isEstablishmentError (valueOf i) <-> retryResult 3 client 0 None = inr None)
  /\ (valueOf i <> Resolved ->
      state (worldOf i) = afterFiredEvents account client (state w)
      /\ globalAgent (worldOf i) = globalAgent w)
  /\ (firedDuring 3 client 0 = [] ->
      afterFiredEvents account client (state w) = state w).
Proof.
  cbn zeta. unfold isEstablishmentError.
  assert (Hw : forall x : World,
    {| state := state x; globalAgent := globalAgent x; isDirty := isDirty x |}
    = x) by (intros [? ? ?]; reflexivity).
  repeat split.
  - unfold createAccount, agentCall, bind, valueOf. cbn.
    destruct (result (calls client 0)) as [[session|]|e]; cbn;
      intros [msg H]; congruence.
  - unfold createAccount, agentCall, bind, valueOf. cbn.
    intros H. rewrite H. cbn. eexists. reflexivity.
  - unfold createAccount, agentCall, bind, valueOf, worldOf. cbn.
    destruct (result (calls client 0)) as [[session|]|e]; cbn; intros H;
      congruence.
  - unfold login, agentCall, bind, valueOf. cbn.
    destruct (result (calls client 0)) as [[session|]|e]; cbn;
      intros [msg H]; congruence.
  - unfold login, agentCall, bind, valueOf. cbn.
    intros H. rewrite H. cbn. eexists. reflexivity.
  - unfold login, agentCall, bind, valueOf, worldOf. cbn.
    destruct (result (calls client 0)) as [[session|]|e]; cbn; intros H;
      congruence.
  - destruct (initSession_run account client w) as [Hv _]. rewrite Hv.
    unfold initSessionOutcome.
    pose proof (retryResult_not_establishment client 3 0 None) as Hne.
    destruct (retryResult 3 client 0 None) as [e|[session|]];
      intros [msg H]; try congruence.
  - destruct (initSession_run account client w) as [Hv _]. rewrite Hv.
    unfold initSessionOutcome. intros H. rewrite H. eexists. reflexivity.
  - match goal with H : valueOf _ <> Resolved |- _ => revert H end.
    destruct (initSession_run account client w) as [Hv [_ [Hs _]]].
    rewrite Hv, Hs. unfold initSessionOutcome, initSessionUpdates,
      afterFiredEvents.
    destruct (retryResult 3 client 0 None) as [e|[session|]]; intros H;
      try congruence; rewrite app_nil_r; reflexivity.
  - match goal with H : valueOf _ <> Resolved |- _ => revert H end.
    destruct (initSession_run account client w) as [Hv [_ [_ Hg]]].
    rewrite Hv, Hg. unfold initSessionOutcome.
    destruct (retryResult 3 client 0 None) as [e|[session|]]; intros H;
      congruence.
  - intros H. unfold afterFiredEvents. rewrite H. reflexivity.
Qed.

(* ===================================================================== *)
(** * The listener of external updates *)
(* ===================================================================== *)

Lemma optStrEqb_spec (x y : option string) :
  optStrEqb x y = true <-> x = y.
Proof.
  destruct x as [a|], y as [b|]; simpl; split; try congruence; auto.
  - intros H. apply String.eqb_eq in H. congruence.
  - intros H. injection H as H. now apply String.eqb_eq.
Qed.


(* ===================================================================== *)
(** * Upload dimensions *)
(* ===================================================================== *)

Lemma Qltb_lt (x y : Q) : Qltb x y = true <-> (x < y)%Q.
Proof.
  unfold Qltb. rewrite negb_true_iff. split.
  - intros H. apply Qnot_le_lt. intro Hle.
    apply Qle_bool_iff in Hle. congruence.
  - intros H. destruct (Qle_bool y x) eqn:E; [|reflexivity].
    apply Qle_bool_iff in E. exfalso. exact (Qlt_not_le _ _ H E).
Qed.

Lemma Qltb_ge (x y : Q) : Qltb x y = false <-> (y <= x)%Q.
Proof.
  unfold Qltb. rewrite negb_false_iff. apply Qle_bool_iff.
Qed.

(** The three shapes of the resized dimensions, by the multiplier. *)
Lemma getResizedDimensions_cases (this : ImageModel)
    (ar : option AspectRatio) (maxSide : Q) :
  let m := ratioMultipliers this (orNone ar) in
  ((m == 1)%Q
   /\ getResizedDimensions this ar maxSide
      = {| width := maxSide; height := maxSide |})
  \/ ((m < 1)%Q
      /\ getResizedDimensions this ar maxSide
         = {| width := (maxSide * m)%Q; height := maxSide |})
  \/ ((1 < m)%Q
      /\ getResizedDimensions this ar maxSide
         = {| width := maxSide; height := (maxSide / m)%Q |}).
Proof.
  cbn zeta. unfold getResizedDimensions.
  destruct (Qeq_bool (ratioMultipliers this (orNone ar)) 1) eqn:E1.
  - left. split; [now apply Qeq_bool_iff | reflexivity].
  - destruct (Qltb (ratioMultipliers this (orNone ar)) 1) eqn:E2.
    + right. left. split; [now apply Qltb_lt | reflexivity].
    + right. right. split; [|reflexivity].
      apply Qltb_ge in E2. apply Qle_lt_or_eq in E2. destruct E2 as [H|H].
      * exact H.
      * symmetry in H. apply Qeq_bool_iff in H. congruence.
Qed.

Section UploadDimensionsProps.

Variable POST_IMG_MAX : Dimensions.
Hypothesis POST_IMG_MAX_positive : (0 < width POST_IMG_MAX)%Q.

Lemma resized_longer_side (this : ImageModel) (ar : option AspectRatio) :
  (longerSide (getResizedDimensions this ar (width POST_IMG_MAX))
   == width POST_IMG_MAX)%Q.
Proof.
  set (M := width POST_IMG_MAX) in *.
  destruct (getResizedDimensions_cases this ar M) as [[Hm E]|[[Hm E]|[Hm E]]];
    rewrite E; unfold longerSide; cbn [width height].
  - destruct (Qle_bool M M); reflexivity.
  - destruct (Qle_bool _ M) eqn:Hle; [reflexivity|].
    exfalso. assert (Hc : Qle_bool (M * ratioMultipliers this (orNone ar)) M
                          = true); [|congruence].
    apply Qle_bool_iff. nra.
  - destruct (Qle_bool M _) eqn:Hle; [|reflexivity].
    exfalso. apply Qle_bool_iff in Hle.
    set (m := ratioMultipliers this (orNone ar)) in *.
    assert (Hm0 : (0 < m)%Q) by lra.
    assert (Hq : (M / m * m == M)%Q) by (field; lra).
    assert (Hpos : (0 < M / m)%Q).
    { apply Qlt_shift_div_l; lra. }
    nra.
Qed.

Lemma resized_ratio (this : ImageModel) (ar : option AspectRatio) :
  let r := getResizedDimensions this ar (width POST_IMG_MAX) in
  (width r / height r == ratioMultipliers this (orNone ar))%Q.
Proof.
  cbn zeta. set (M := width POST_IMG_MAX) in *.
  destruct (getResizedDimensions_cases this ar M) as [[Hm E]|[[Hm E]|[Hm E]]];
    rewrite E; cbn [width height].
  - rewrite Hm. field. lra.
  - field. lra.
  - field. split; lra.
Qed.


End UploadDimensionsProps.


(* ===================================================================== *)
(** * Scenarios *)
(* ===================================================================== *)

(** Empty roster, [login] as alice: alice is the only account and is
    current. *)
Example scenario_login :
  let s := finalState [loginOf aliceSession] (initialWorld emptySession) in
  dids (accounts s) = ["did:1"] /\ didOf (currentAccount s) = Some "did:1".
Proof. split; reflexivity. Qed.

(** Alice current, bob in the roster, [selectAccount(bob)] succeeds. *)
Example scenario_select :
  let w := worldOf (runOps [loginOf bobSession; loginOf aliceSession]
                           (initialWorld emptySession)) in
  let r := selectAccount bobAccount (clientReturning bobSession) w in
  valueOf r = Resolved
  /\ didOf (currentAccount (state (worldOf r))) = Some "did:2"
  /\ dids (accounts (state (worldOf r))) = ["did:2"; "did:1"]
  /\ isSwitchingAccounts (state (worldOf r)) = false.
Proof. repeat split; reflexivity. Qed.

(** The handler of the current account receives ["expired"]. *)
Example scenario_expired :
  let w := worldOf (runOps [loginOf aliceSession] (initialWorld emptySession)) in
  let r := createPersistSessionHandler aliceAccount persistSessionCallback
             "expired" None w in
  currentAccount (state (worldOf r)) = None
  /\ dids (accounts (state (worldOf r))) = ["did:1"]
  /\ countEffects isSessionDropped (effectsOf r) = 1.
Proof. repeat split; reflexivity. Qed.

(** An external update names bob while alice is current in memory. *)
Example scenario_external_update :
  let s := finalState [loginOf aliceSession] (initialWorld emptySession) in
  onUpdateCalls {| ps_accounts := [bobAccount; aliceAccount];
                   ps_currentAccount := Some bobAccount |} s
  = [CallInitSession bobAccount].
Proof. reflexivity. Qed.

(** A transient failure is retried: two network errors, then a session. *)
Example scenario_retry :
  let client :=
    {| serviceString := "https://bsky.social/";
       calls := fun i =>
         match i with
         | 0 | 1 => {| fired := [];
                       result := Threw {| isNetworkError := true;
                                          message := "Network request failed" |} |}
         | _ => {| fired := [("create", Some aliceSession)];
                   result := Returned (Some aliceSession) |}
         end |} in
  let r := initSession aliceAccount client (initialWorld emptySession) in
  valueOf r = Resolved
  /\ currentAccount (state (worldOf r)) = Some aliceAccount.
Proof. split; reflexivity. Qed.

(** Upload dimensions of a 4032 x 3024 photo cropped to 4:3. *)
Example scenario_resize :
  getUploadDimensions postImgMax2000 photo4032x3024
    {| width := 4032%Q; height := 3024%Q |} None (Some Ratio4x3)
  = {| width := 2000%Q; height := (2000 / (4 / 3))%Q |}.
Proof. reflexivity. Qed.

(* ===================================================================== *)
(** * More on the roster operations *)
(* ===================================================================== *)

Lemma in_withoutDid (d : string) (b : SessionAccount) (l : list SessionAccount) :
  In b (withoutDid d l) <-> In b l /\ did b <> d.
Proof.
  unfold withoutDid. rewrite filter_In. split; intros [H1 H2]; split; auto.
  - intro E. rewrite E, String.eqb_refl in H2. discriminate H2.
  - destruct (String.eqb_spec (did b) d); [contradiction | reflexivity].
Qed.

Lemma withoutDid_idempotent (d : string) (l : list SessionAccount) :
  withoutDid d (withoutDid d l) = withoutDid d l.
Proof.
  unfold withoutDid. induction l as [|a l IH]; simpl; [reflexivity|].
  destruct (negb (String.eqb (did a) d)) eqn:E; simpl; rewrite ?E, IH;
    reflexivity.
Qed.

Lemma withoutDid_absent (d : string) (l : list SessionAccount) :
  ~ In d (dids l) -> withoutDid d l = l.
Proof.
  unfold withoutDid, dids. induction l as [|a l IH]; simpl; intros H;
    [reflexivity|].
  destruct (String.eqb_spec (did a) d) as [E|E]; simpl.
  - exfalso. apply H. left. exact E.
  - rewrite IH; [reflexivity|]. intro Hin. apply H. right. exact Hin.
Qed.

Lemma withoutDid_head (a : SessionAccount) (l : list SessionAccount) :
  withoutDid (did a) (a :: l) = withoutDid (did a) l.
Proof. unfold withoutDid. simpl. rewrite String.eqb_refl. reflexivity. Qed.

Lemma upsert_present_dids (d : string) (l : list SessionAccount) :
  NoDup (dids l) -> In d (dids l) ->
  Permutation (d :: dids (withoutDid d l)) (dids l).
Proof.
  induction l as [|x l IH]; simpl; intros Hnd Hin; [contradiction|].
  inversion Hnd as [|y ys Hnotin Hnd']; subst.
  unfold withoutDid. simpl.
  destruct (String.eqb_spec (did x) d) as [E|E]; simpl.
  - subst d. fold (withoutDid (did x) l).
    rewrite (withoutDid_absent (did x) l Hnotin). apply Permutation_refl.
  - destruct Hin as [Hin|Hin]; [contradiction|].
    fold (withoutDid d l). fold (dids (withoutDid d l)).
    eapply Permutation_trans; [apply perm_swap|].
    apply perm_skip. apply IH; assumption.
Qed.

(** X1: upserting the same account twice in a row leaves the world exactly
    as one upsert does. *)
Theorem X1_upsertAccount_idempotent (account : SessionAccount) (expired : bool)
    (w : World) :
  worldOf ((upsertAccount account expired ;; upsertAccount account expired) w)
  = worldOf (upsertAccount account expired w).
Proof.
  unfold upsertAccount, setStateAndPersist, bind, worldOf.
  cbn -[withoutDid].
  rewrite withoutDid_head, withoutDid_idempotent. reflexivity.
Qed.

(** X2: an upsert keeps every account with another [did] as it is and drops
    every other record with the upserted [did]: afterwards the roster holds
    the upserted record and exactly the old records with a different [did];
    it grows by at most one entry. *)
Theorem X2_upsertAccount_membership (account : SessionAccount)
    (expired : bool) (w : World) :
  let s' := state (worldOf (upsertAccount account expired w)) in
  (forall b,
     In b (accounts s')
     <-> b = account \/ (In b (accounts (state w)) /\ did b <> did account))
  /\ length (accounts s') <= S (length (accounts (state w))).
Proof.
  cbn zeta. unfold upsertAccount, setStateAndPersist, worldOf.
  cbn -[withoutDid]. split.
  - intros b. rewrite in_withoutDid. split.
    + intros [H|H]; [left; congruence | right; exact H].
    + intros [H|H]; [left; congruence | right; exact H].
  - apply le_n_S. unfold withoutDid. apply filter_length_le.
Qed.

(** X3: in a roster with unique [did]s, upserting an account whose [did] is
    already present only reorders the [did]s: the list of [did]s is a
    permutation of the old one and the roster keeps its length. *)
Theorem X3_upsertAccount_present (account : SessionAccount) (expired : bool)
    (w : World) :
  uniqueDids (state w) ->
  In (did account) (dids (accounts (state w))) ->
  let s' := state (worldOf (upsertAccount account expired w)) in
  Permutation (dids (accounts s')) (dids (accounts (state w)))
  /\ length (accounts s') = length (accounts (state w)).
Proof.
  intros Hu Hin. cbn zeta.
  unfold upsertAccount, setStateAndPersist, worldOf. cbn -[withoutDid].
  pose proof (upsert_present_dids (did account) (accounts (state w)) Hu Hin)
    as Hp.
  split; [exact Hp|].
  apply Permutation_length in Hp. simpl in Hp. unfold dids in Hp.
  rewrite !length_map in Hp. exact Hp.
Qed.

(** The roster of [stateOfBobAfterAlice] is bob, alice; upserting alice's
    record again gives alice, bob. *)
Lemma X3_witness :
  Permutation
    (dids (accounts (state (worldOf (upsertAccount aliceAccount false
                                       stateOfBobAfterAlice)))))
    (dids (accounts (state stateOfBobAfterAlice)))
  /\ length (accounts (state (worldOf (upsertAccount aliceAccount false
                                         stateOfBobAfterAlice))))
     = length (accounts (state stateOfBobAfterAlice)).
Proof.
  apply (X3_upsertAccount_present aliceAccount false stateOfBobAfterAlice).
  - vm_compute. repeat constructor; simpl; intuition discriminate.
  - vm_compute. right. left. reflexivity.
Defined.

(** X4: [removeAccount] removes exactly the records with the given [did]
    and nothing else: every other record stays, [currentAccount] and the
    active agent are untouched, a [did] that is not in the roster leaves
    the roster as it is, and removing twice is removing once. *)
Theorem X4_removeAccount_exact (account : SessionAccount) (w : World) :
  let w' := worldOf (removeAccount account w) in
  (forall b,
     In b (accounts (state w'))
     <-> In b (accounts (state w)) /\ did b <> did account)
  /\ currentAccount (state w') = currentAccount (state w)
  /\ getAgent w' = getAgent w
  /\ (~ In (did account) (dids (accounts (state w))) ->
      accounts (state w') = accounts (state w))
  /\ worldOf (removeAccount account w') = w'.
Proof.
  cbn zeta. unfold removeAccount, setStateAndPersist, worldOf, getAgent.
  cbn -[withoutDid].
  split; [intros b; apply in_withoutDid|].
  split; [reflexivity|]. split; [reflexivity|]. split.
  - apply withoutDid_absent.
  - rewrite withoutDid_idempotent. reflexivity.
Qed.

Lemma orStr_idempotent (x : option string) (y : string) :
  orStr x (orStr x y) = orStr x y.
Proof. destruct x as [s|]; simpl; [destruct (truthy s)|]; reflexivity. Qed.

Lemma orOptStr_idempotent (x y : option string) :
  orOptStr x (orOptStr x y) = orOptStr x y.
Proof. destruct x as [s|]; simpl; [destruct (truthy s)|]; reflexivity. Qed.

Lemma patchAccount_idempotent (c : SessionAccount) (p : AccountPatch) :
  patchAccount (patchAccount c p) p = patchAccount c p.
Proof.
  unfold patchAccount. simpl.
  rewrite orStr_idempotent, orOptStr_idempotent.
  destruct (p_emailConfirmed p); reflexivity.
Qed.

(** X5: applying the same patch with [updateCurrentAccount] twice in a row
    gives the state that applying it once gives, with or without a current
    account. *)
Theorem X5_updateCurrentAccount_idempotent (patch : AccountPatch) (w : World) :
  worldOf ((updateCurrentAccount patch ;; updateCurrentAccount patch) w)
  = worldOf (updateCurrentAccount patch w).
Proof.
  unfold updateCurrentAccount, setStateAndPersist, bind, worldOf.
  cbn -[withoutDid patchAccount].
  destruct (currentAccount (state w)) as [c|] eqn:E; cbn -[withoutDid patchAccount].
  - rewrite patchAccount_idempotent.
    change (did c) with (did (patchAccount c patch)) at 1.
    rewrite withoutDid_head, withoutDid_idempotent. reflexivity.
  - rewrite E. reflexivity.
Qed.

(** X6: [updateCurrentAccount] changes nothing of the state when there is
    no current account; otherwise the patched record becomes both
    [currentAccount] and the head of the roster and keeps the [did], the
    service and both tokens of the current account.  A patch whose handle
    and email are empty strings or absent, without [emailConfirmed], leaves
    the record as it is. *)
Theorem X6_updateCurrentAccount_identity (patch : AccountPatch) (w : World) :
  let s' := state (worldOf (updateCurrentAccount patch w)) in
  match currentAccount (state w) with
  | None => s' = state w
  | Some c =>
      currentAccount s' = Some (patchAccount c patch)
      /\ hd_error (accounts s') = Some (patchAccount c patch)
      /\ did (patchAccount c patch) = did c
      /\ service (patchAccount c patch) = service c
      /\ refreshJwt (patchAccount c patch) = refreshJwt c
      /\ accessJwt (patchAccount c patch) = accessJwt c
      /\ patchAccount c {| p_handle := Some ""; p_email := Some "";
                           p_emailConfirmed := None |} = c
      /\ patchAccount c {| p_handle := None; p_email := None;
                           p_emailConfirmed := None |} = c
  end.
Proof.
  cbn zeta. unfold updateCurrentAccount, setStateAndPersist, worldOf. simpl.
  destruct (currentAccount (state w)) as [c|] eqn:E; simpl.
  - repeat split; destruct c; reflexivity.
  - reflexivity.
Qed.

(** X7: the reconciled account of the persist-session handler is confirmed
    exactly when the session says so or the prior account already was: a
    session that reports [emailConfirmed] false or nothing never takes a
    confirmation back. *)
Theorem X7_refreshed_emailConfirmed (account : SessionAccount)
    (session : option AtpSessionData) :
  emailConfirmed (refreshedAccountOf account session) = true
  <-> (exists s, session = Some s /\ s_emailConfirmed s = Some true)
      \/ emailConfirmed account = true.
Proof.
  unfold refreshedAccountOf. simpl. destruct session as [s|]; simpl.
  - destruct (s_emailConfirmed s) as [[|]|] eqn:E; simpl; split; auto.
    + intros _. left. exists s. auto.
    + intros [[s' [H1 H2]]|H]; [|exact H].
      injection H1 as H1. subst s'. congruence.
    + intros [[s' [H1 H2]]|H]; [|exact H].
      injection H1 as H1. subst s'. congruence.
  - split; auto. intros [[s' [H1 _]]|H]; [discriminate H1 | exact H].
Qed.

Lemma stripTokens_idempotent (l : list SessionAccount) :
  map stripTokens (map stripTokens l) = map stripTokens l.
Proof. rewrite map_map. apply map_ext. reflexivity. Qed.

(** X8: [logout] is idempotent: a second [logout] leaves the world of the
    first. *)
Theorem X8_logout_idempotent (w : World) :
  worldOf (logout (worldOf (logout w))) = worldOf (logout w).
Proof.
  unfold logout, clearCurrentAccount, worldOf. simpl.
  rewrite stripTokens_idempotent. reflexivity.
Qed.

(** X9: after [logout], whichever account of the roster is handed to
    [initSession], the tokens it passes to [agent.resumeSession] are both
    the empty string: no stored session can be resumed. *)
Theorem X9_logout_leaves_no_resumable_token (w : World) :
  Forall (fun a => ra_accessJwt (resumeSessionArgs a) = ""
                   /\ ra_refreshJwt (resumeSessionArgs a) = "")
         (accounts (state (worldOf (logout w)))).
Proof.
  unfold logout, clearCurrentAccount, worldOf. simpl.
  induction (accounts (state w)) as [|a l IH]; simpl; constructor; auto.
Qed.

(* ===================================================================== *)
(** * Relations kept by every operation *)
(* ===================================================================== *)

Section StepInvariant.

Variable R : World -> World -> list Effect -> Prop.

Hypothesis R_refl : forall w, R w w [].
Hypothesis R_trans :
  forall w1 w2 w3 es1 es2,
    R w1 w2 es1 -> R w2 w3 es2 -> R w1 w3 (es1 ++ es2).
Hypothesis R_effect : forall e w, updatesIn [e] = [] -> R w w [e].
Hypothesis R_setState :
  forall u w, isFlagUpdate u = true -> R w (worldOf (setState u w)) [SetState u].
Hypothesis R_setStateAndPersist :
  forall u w,
    isFlagUpdate u = false -> R w (worldOf (setStateAndPersist u w)) [SetState u].
Hypothesis R_setGlobalAgent :
  forall g w, agentHasSession g -> R w (worldOf (setGlobalAgent g w)) [].

Lemma respects_ret {A : Type} (a : A) : respects R (ret a).
Proof. intro w. apply R_refl. Qed.

Lemma respects_bind {A B : Type} (m : M A) (f : A -> M B) :
  respects R m -> (forall a, respects R (f a)) -> respects R (bind m f).
Proof.
  intros Hm Hf w. unfold bind.
  specialize (Hm w). destruct (m w) as [[a w1] es1].
  specialize (Hf a w1). destruct (f a w1) as [[b w2] es2].
  unfold worldOf, effectsOf in *. simpl in *. eapply R_trans; eauto.
Qed.

Lemma respects_effect (e : Effect) :
  updatesIn [e] = [] -> respects R (effect e).
Proof. intros H w. apply R_effect. exact H. Qed.

Lemma respects_upsertAccount (a : SessionAccount) (e : bool) :
  respects R (upsertAccount a e).
Proof. intro w. apply R_setStateAndPersist. reflexivity. Qed.

Ltac respects_step :=
  first
    [ apply respects_ret
    | apply respects_upsertAccount
    | apply respects_effect; reflexivity
    | (intro w; apply R_setState; reflexivity)
    | (intro w; apply R_setStateAndPersist; reflexivity)
    | (intro w; apply R_setGlobalAgent; simpl; congruence)
    | apply respects_bind; [| intro ]
    | match goal with
      | |- respects R (match ?x with _ => _ end) => destruct x
      | |- respects R (if ?x then _ else _) => destruct x
      end ].

Ltac respects_auto :=
  unfold logDebug, logError, emitSessionDropped, emitSessionLoaded,
    queryClientClear;
  repeat respects_step.

Lemma respects_persistSession (account : SessionAccount) (event : string)
    (session : option AtpSessionData) :
  respects R (createPersistSessionHandler account persistSessionCallback
                event session).
Proof.
  unfold createPersistSessionHandler, persistSessionCallback. respects_auto.
Qed.

Lemma respects_fire (account : SessionAccount) events :
  respects R (fire (createPersistSessionHandler account persistSessionCallback)
                   events).
Proof.
  induction events as [|[ev s] rest IH]; simpl.
  - apply respects_ret.
  - apply respects_bind; [apply respects_persistSession | intros _; exact IH].
Qed.

Lemma respects_networkRetry (account : SessionAccount) (client : Client)
    (retries : nat) :
  forall attempt lastErr,
    respects R
      (networkRetry retries
         (fun i =>
            agentCall
              (Some (createPersistSessionHandler account persistSessionCallback))
              (calls client i))
         attempt lastErr).
Proof.
  induction retries as [|n IH]; intros attempt lastErr; simpl.
  - apply respects_ret.
  - apply respects_bind.
    + unfold agentCall. apply respects_bind;
        [apply respects_fire | intros _; apply respects_ret].
    + intros [session|e]; [apply respects_ret|].
      destruct (isNetworkError e); [apply IH | apply respects_ret].
Qed.

Lemma respects_initSession (account : SessionAccount) (client : Client) :
  respects R (initSession account client).
Proof.
  unfold initSession. apply respects_bind; [respects_auto|]. intros _.
  apply respects_bind; [apply respects_networkRetry|].
  intros [e|[session|]]; respects_auto.
Qed.

Lemma respects_clearCurrentAccount : respects R clearCurrentAccount.
Proof.
  unfold clearCurrentAccount. respects_auto.
  intro w. apply R_setGlobalAgent. exact I.
Qed.

Lemma respects_runListenerCalls (client : Client) (cs : list ListenerCall) :
  respects R (runListenerCalls client cs).
Proof.
  induction cs as [|c cs IH]; simpl; [apply respects_ret|].
  apply respects_bind; [| intros _; exact IH].
  destruct c; simpl.
  - apply respects_bind; [respects_auto|]. intros _.
    apply respects_bind; [apply respects_initSession |
                          intros _; apply respects_ret].
  - apply respects_bind; [respects_auto|]. intros _.
    apply respects_clearCurrentAccount.
Qed.

Lemma respects_runOp (op : Op) : respects R (runOp op).
Proof.
  destruct op; simpl.
  - unfold createAccount, agentCall. respects_auto.
  - unfold login, agentCall. respects_auto.
  - unfold logout. apply respects_bind; [apply respects_clearCurrentAccount|].
    intros _. respects_auto.
  - apply respects_bind; [apply respects_clearCurrentAccount|].
    intros _. apply respects_ret.
  - apply respects_initSession.
  - unfold resumeSession. apply respects_bind.
    + destruct account; [apply respects_initSession | apply respects_ret].
    + intros r. respects_auto.
  - unfold removeAccount. respects_auto.
  - unfold selectAccount. apply respects_bind; [respects_auto|].
    intros _. apply respects_bind; [apply respects_initSession|].
    intros r. respects_auto.
  - unfold updateCurrentAccount. respects_auto.
  - apply respects_bind; [apply respects_persistSession |
                          intros _; apply respects_ret].
  - apply respects_bind; [| intros _; apply respects_ret].
    unfold onUpdateListener, getState.
    apply respects_bind; [intro w; apply R_refl|]. intros st.
    apply respects_bind; [respects_auto|]. intros _.
    apply respects_runListenerCalls.
Qed.

Lemma respects_runOps (ops : list Op) : respects R (runOps ops).
Proof.
  induction ops as [|op ops IH]; simpl.
  - apply respects_ret.
  - apply respects_bind; [apply respects_runOp | intros _; exact IH].
Qed.

End StepInvariant.

(* ===================================================================== *)
(** * The active agent and the dirty flag *)
(* ===================================================================== *)

Lemma keepsAgentSession_runOps (ops : list Op) :
  respects keepsAgentSession (runOps ops).
Proof.
  apply respects_runOps; unfold keepsAgentSession, worldOf; simpl; auto.
Qed.

(** X10: whatever the sequence of operations and the behaviour of the
    clients, the agent returned by [getAgent()] is the public agent or an
    agent that had established a session when it was installed: no
    operation installs an agent without a session. *)
Theorem X10_agent_has_session (ops : list Op) (w0 : World) :
  agentHasSession (getAgent w0) ->
  agentHasSession (getAgent (worldOf (runOps ops w0))).
Proof. unfold getAgent. apply (keepsAgentSession_runOps ops w0). Qed.

(** A failing [createAccount], a failing switch and a logout, from the
    initial world. *)
Lemma X10_witness :
  agentHasSession
    (getAgent
       (worldOf
          (runOps [OpCreateAccount
                     {| ca_service := "https://bsky.social";
                        ca_email := "carol@example.com";
                        ca_password := "p"; ca_handle := "carol";
                        ca_inviteCode := None |}
                     noSessionClient;
                   loginOf aliceSession;
                   OpSelectAccount bobAccount expiredTokenClient;
                   OpLogout]
                  (initialWorld emptySession)))).
Proof.
  apply X10_agent_has_session. exact I.
Defined.

Lemma cleanOnlyByFlags_runOps (ops : list Op) :
  respects cleanOnlyByFlags (runOps ops).
Proof.
  apply respects_runOps; unfold cleanOnlyByFlags, worldOf; simpl.
  - auto.
  - intros w1 w2 w3 es1 es2 H12 H23 H3.
    destruct (H23 H3) as [H2 Hf2]. destruct (H12 H2) as [H1 Hf1].
    split; [exact H1|]. rewrite updatesIn_app, forallb_app, Hf1, Hf2.
    reflexivity.
  - intros e w He Hd. rewrite He. auto.
  - intros u w Hu Hd. rewrite Hu. auto.
  - intros u w _ Hd. discriminate Hd.
  - auto.
Qed.

Lemma flag_updates_keep_roster (us : list Updater) :
  forall s,
    forallb isFlagUpdate us = true ->
    accounts (applyUpdaters us s) = accounts s
    /\ currentAccount (applyUpdaters us s) = currentAccount s.
Proof.
  induction us as [|u us IH]; intros s H; simpl in *; [auto|].
  apply andb_prop in H. destruct H as [Hu Hus].
  destruct (IH (applyUpdater u s) Hus) as [H1 H2].
  unfold applyUpdaters in *. rewrite H1, H2.
  destruct u; try discriminate Hu; auto.
Qed.



(** A flush writes at most once per batch of updates: right after a
    flush, a second flush writes nothing and changes nothing; and a flush
    never changes the state or the active agent. *)
Lemma persistEffect_once (w : World) :
  let w1 := snd (persistEffect w) in
  fst (persistEffect w1) = None
  /\ snd (persistEffect w1) = w1
  /\ state w1 = state w
  /\ getAgent w1 = getAgent w.
Proof.
  cbn zeta. unfold persistEffect, getAgent.
  destruct (isDirty w) eqn:E; simpl; rewrite ?E; auto.
Qed.


(** X13: a persist-session event other than an expiry makes the account of
    its handler current and head of the roster, whatever the state and
    whichever agent is active: delivered after [clearCurrentAccount], a
    ["create"] or ["update"] event brings [hasSession] back to true while
    [getAgent()] still is the public agent. *)
Theorem X13_refresh_after_clear (account : SessionAccount) (event : string)
    (session : option AtpSessionData) (w : World) :
  isExpiredEvent event = false ->
  let w1 := worldOf (clearCurrentAccount w) in
  let w2 := worldOf (createPersistSessionHandler account
                       persistSessionCallback event session w1) in
  hasSession (state w1) = false
  /\ hasSession (state w2) = true
  /\ currentAccount (state w2) = Some (refreshedAccountOf account session)
  /\ hd_error (accounts (state w2)) = Some (refreshedAccountOf account session)
  /\ getAgent w2 = PUBLIC_BSKY_AGENT.
Proof.
  intros He. cbn zeta. rewrite persistSession_run. rewrite He.
  unfold clearCurrentAccount, worldOf, getAgent, hasSession. simpl. auto.
Qed.

Lemma X13_witness :
  hasSession
    (state
       (worldOf
          (createPersistSessionHandler aliceAccount persistSessionCallback
             "update" (Some aliceSession)
             (worldOf (clearCurrentAccount stateOfBobAfterAlice)))))
  = true.
Proof.
  apply (X13_refresh_after_clear aliceAccount "update" (Some aliceSession)
           stateOfBobAfterAlice).
  reflexivity.
Defined.

(** X14: the callback of [useRequireAuth] runs the guarded function exactly
    when an account is current and otherwise closes the active elements
    and opens the logged-out view without running it.  So it does not run
    the function after [logout], [clearCurrentAccount] or an expiry event,
    and it runs it after a [login] whose client established a session. *)
Theorem X14_requireAuth (s : SessionState) (w : World)
    (account : SessionAccount) (event : string)
    (session : option AtpSessionData) (props : LoginProps) (client : Client) :
  (useRequireAuth s = [CallFn] <-> currentAccount s <> None)
  /\ (~ In CallFn (useRequireAuth s) <-> currentAccount s = None)
  /\ useRequireAuth (state (worldOf (logout w)))
     = [CloseAll; SetShowLoggedOut true]
  /\ useRequireAuth (state (worldOf (clearCurrentAccount w)))
     = [CloseAll; SetShowLoggedOut true]
  /\ (isExpiredEvent event = true ->
      useRequireAuth
        (state (worldOf (createPersistSessionHandler account
                           persistSessionCallback event session w)))
      = [CloseAll; SetShowLoggedOut true])
  /\ (forall established,
        result (calls client 0) = Returned (Some established) ->
        useRequireAuth (state (worldOf (login props client w))) = [CallFn]).
Proof.
  unfold useRequireAuth, hasSession.
  split; [|split; [|split; [|split; [|split]]]].
  - destruct (currentAccount s); split; congruence.
  - destruct (currentAccount s); simpl; split.
    + intros H. exfalso. apply H. left. reflexivity.
    + discriminate.
    + reflexivity.
    + intros _ [F|[F|F]]; [discriminate F | discriminate F | exact F].
  - reflexivity.
  - reflexivity.
  - intros H. rewrite persistSession_run. rewrite H. reflexivity.
  - intros established H.
    unfold login, agentCall, bind, worldOf. simpl. rewrite H. reflexivity.
Qed.

(* ===================================================================== *)
(** * Notifications *)
(* ===================================================================== *)

Lemma fire_effects (account : SessionAccount) events :
  forall w,
    effectsOf (fire (createPersistSessionHandler account persistSessionCallback)
                    events w)
    = handlerEffects account events.
Proof.
  unfold effectsOf.
  induction events as [|[ev s] rest IH]; intros w; simpl; [reflexivity|].
  unfold bind. rewrite persistSession_run.
  match goal with
  | |- context [fire ?h rest ?w1] =>
      specialize (IH w1); destruct (fire h rest w1) as [[u w2] es2]
  end.
  simpl in *. rewrite IH. rewrite <- app_assoc. reflexivity.
Qed.

Lemma agentCall_effects (account : SessionAccount) (c : ClientCall) (w : World) :
  effectsOf (agentCall
               (Some (createPersistSessionHandler account persistSessionCallback))
               c w)
  = handlerEffects account (fired c).
Proof.
  pose proof (fire_effects account (fired c) w) as H.
  unfold agentCall, bind, effectsOf in *.
  destruct (fire _ (fired c) w) as [[u w1] es1].
  simpl in *. rewrite app_nil_r. exact H.
Qed.

Lemma handlerEffects_app (account : SessionAccount) evs1 evs2 :
  handlerEffects account (evs1 ++ evs2)
  = handlerEffects account evs1 ++ handlerEffects account evs2.
Proof. unfold handlerEffects. apply flat_map_app. Qed.

Lemma networkRetry_effects (account : SessionAccount) (client : Client)
    (retries : nat) :
  forall attempt lastErr w,
    effectsOf
      (networkRetry retries
         (fun i =>
            agentCall
              (Some (createPersistSessionHandler account persistSessionCallback))
              (calls client i))
         attempt lastErr w)
    = handlerEffects account (firedDuring retries client attempt).
Proof.
  induction retries as [|n IH]; intros attempt lastErr w.
  - reflexivity.
  - cbn [networkRetry firedDuring].
    pose proof (agentCall_effects account (calls client attempt) w) as He.
    pose proof (agentCall_handler account (calls client attempt) w) as Hc.
    cbn zeta in Hc. destruct Hc as [Hv _]. unfold bind.
    destruct (agentCall _ (calls client attempt) w) as [[res w1] es1].
    unfold valueOf, effectsOf in *. simpl in He, Hv. subst res es1.
    rewrite handlerEffects_app.
    destruct (result (calls client attempt)) as [session|e]; simpl.
    + reflexivity.
    + destruct (isNetworkError e); simpl.
      * specialize (IH (S attempt) (Some e) w1).
        destruct (networkRetry n _ (S attempt) (Some e) w1) as [[v w2] es2].
        simpl in *. rewrite IH. reflexivity.
      * reflexivity.
Qed.

Lemma initSession_effects (account : SessionAccount) (client : Client)
    (w : World) :
  effectsOf (initSession account client w) = initSessionEffects account client.
Proof.
  pose proof (networkRetry_effects account client 3 0 None w) as He.
  pose proof (networkRetry_handler account client 3 0 None w) as Hn.
  cbn zeta in Hn. destruct Hn as [Hv _].
  unfold initSessionEffects.
  remember (retryResult 3 client 0 None) as rr eqn:Hrr.
  remember (firedDuring 3 client 0) as evs eqn:Hevs.
  unfold initSession, bind, logDebug, effect.
  destruct (networkRetry 3 _ 0 None w) as [[v w1] es1].
  unfold valueOf, effectsOf in *. cbn [fst snd] in *. subst v es1.
  destruct rr as [e|[session|]]; cbn; reflexivity.
Qed.

Lemma handlerEffects_loaded (account : SessionAccount) events :
  countEffects isSessionLoaded (handlerEffects account events) = 0.
Proof.
  unfold countEffects. induction events as [|ev rest IH]; simpl; [reflexivity|].
  rewrite filter_app, length_app.
  destruct (isExpiredEvent (fst ev)); simpl; exact IH.
Qed.

Lemma handlerEffects_dropped (account : SessionAccount) events :
  countEffects isSessionDropped (handlerEffects account events)
  = length (expiredEvents events).
Proof.
  unfold countEffects, expiredEvents.
  induction events as [|ev rest IH]; simpl; [reflexivity|].
  rewrite filter_app, length_app.
  destruct (isExpiredEvent (fst ev)); simpl; rewrite IH; reflexivity.
Qed.

(** X15: each of [createAccount], [login] and [initSession] emits the
    session-loaded notification exactly once when it resolves and never
    when it rejects; when it resolves, the account it announces is the one
    that is current afterwards and the agent it announces is the one
    [getAgent()] returns afterwards. *)
Theorem X15_session_loaded_once (caProps : CreateAccountProps)
    (liProps : LoginProps) (account : SessionAccount) (client : Client)
    (w : World) :
  let announces (r : Outcome * World * list Effect) :=
    match valueOf r with
    | Resolved =>
        exists a,
          currentAccount (state (worldOf r)) = Some a
          /\ filter isSessionLoaded (effectsOf r)
             = [EmitSessionLoaded a (getAgent (worldOf r))]
    | Rejected _ => filter isSessionLoaded (effectsOf r) = []
    end in
  announces (createAccount caProps client w)
  /\ announces (login liProps client w)
  /\ announces (initSession account client w).
Proof.
  cbn zeta. split; [|split].
  - unfold createAccount, agentCall, bind, valueOf, worldOf, effectsOf, getAgent.
    simpl. destruct (result (calls client 0)) as [[session|]|e]; simpl;
      eauto.
  - unfold login, agentCall, bind, valueOf, worldOf, effectsOf, getAgent.
    simpl. destruct (result (calls client 0)) as [[session|]|e]; simpl;
      eauto.
  - destruct (initSession_run account client w) as [Hv [_ [Hs Hg]]].
    rewrite Hv, Hs, initSession_effects. unfold getAgent. rewrite Hg.
    unfold initSessionOutcome, initSessionUpdates, initSessionEffects.
    pose proof (handlerEffects_loaded account (firedDuring 3 client 0)) as H0.
    unfold countEffects in H0. apply length_zero_iff_nil in H0.
    destruct (retryResult 3 client 0 None) as [e|[session|]];
      cbn [filter isSessionLoaded]; rewrite filter_app, H0;
      try reflexivity.
    exists (freshAccountOf client session).
    rewrite applyUpdaters_app. split; reflexivity.
Qed.

(** X16: [initSession] emits the session-dropped notification once for each
    expiry event the client delivers during the resume attempts, and not
    otherwise; [createAccount] and [login], whose agent has no handler
    while the call runs, never emit it. *)
Theorem X16_session_dropped_count (caProps : CreateAccountProps)
    (liProps : LoginProps) (account : SessionAccount) (client : Client)
    (w : World) :
  countEffects isSessionDropped (effectsOf (initSession account client w))
  = length (expiredEvents (firedDuring 3 client 0))
  /\ countEffects isSessionDropped (effectsOf (createAccount caProps client w))
     = 0
  /\ countEffects isSessionDropped (effectsOf (login liProps client w)) = 0.
Proof.
  split; [|split].
  - rewrite initSession_effects. unfold initSessionEffects, countEffects.
    cbn [filter isSessionDropped]. rewrite filter_app, length_app.
    pose proof (handlerEffects_dropped account (firedDuring 3 client 0)) as H.
    unfold countEffects in H. rewrite H.
    destruct (retryResult 3 client 0 None) as [e|[session|]]; simpl; lia.
  - unfold createAccount, agentCall, bind, effectsOf, countEffects. simpl.
    destruct (result (calls client 0)) as [[session|]|e]; reflexivity.
  - unfold login, agentCall, bind, effectsOf, countEffects. simpl.
    destruct (result (calls client 0)) as [[session|]|e]; reflexivity.
Qed.

(* ===================================================================== *)
(** * The listener of external updates, run *)
(* ===================================================================== *)

Lemma onUpdateListener_world (session : PersistedSession) (client : Client)
    (w : World) :
  worldOf (onUpdateListener session client w)
  = worldOf (runListenerCalls client (onUpdateCalls session (state w)) w).
Proof.
  unfold onUpdateListener, bind, getState, logDebug, effect, worldOf.
  destruct (runListenerCalls client (onUpdateCalls session (state w)) w)
    as [[u w1] es1]. reflexivity.
Qed.

Lemma upsert_last_current (us : list Updater) (a : SessionAccount)
    (s : SessionState) :
  currentAccount (applyUpdaters (us ++ [UpsertAccount a false]) s) = Some a.
Proof. rewrite applyUpdaters_app. reflexivity. Qed.

(** X17: one run of the listener brings the in-memory current account in
    line with the persisted record, provided that, when the record names a
    current account, the client resumes a session for that [did].
    Afterwards the [did] of [currentAccount] is the persisted one, and a
    second notification of the same record makes no call. *)
Theorem X17_listener_settles (session : PersistedSession) (client : Client)
    (w : World) :
  (forall p,
     ps_currentAccount session = Some p ->
     exists s, retryResult 3 client 0 None = inr (Some s) /\ s_did s = did p) ->
  let w' := worldOf (onUpdateListener session client w) in
  didOf (currentAccount (state w')) = didOf (ps_currentAccount session)
  /\ onUpdateCalls session (state w') = [].
Proof.
  intros Hc. cbn zeta.
  assert (Hd : didOf (currentAccount
                        (state (worldOf (onUpdateListener session client w))))
               = didOf (ps_currentAccount session)).
  { rewrite onUpdateListener_world. unfold onUpdateCalls.
    destruct (ps_currentAccount session) as [p|] eqn:Hp.
    - destruct (optStrEqb (Some (did p)) (didOf (currentAccount (state w))))
        eqn:E; cbn [negb].
      + apply optStrEqb_spec in E. simpl. symmetry. exact E.
      + cbn [runListenerCalls runListenerCall].
        destruct (initSession_run p client w) as [_ [_ [Hs _]]].
        unfold bind, logDebug, effect, ret.
        destruct (initSession p client w) as [[v w1] es1].
        unfold worldOf in *. cbn [fst snd] in *. rewrite Hs.
        unfold initSessionUpdates.
        destruct (Hc p eq_refl) as [s [Hr Hdid]]. rewrite Hr.
        rewrite upsert_last_current. simpl. congruence.
    - destruct (currentAccount (state w)) eqn:E; cbn; rewrite ?E;
        reflexivity. }
  split; [exact Hd|].
  unfold onUpdateCalls.
  destruct (ps_currentAccount session) as [p|] eqn:Hp.
  - simpl in Hd. rewrite Hd. simpl. rewrite String.eqb_refl. reflexivity.
  - simpl in Hd.
    destruct (currentAccount
                (state (worldOf (onUpdateListener session client w))));
      [discriminate Hd | reflexivity].
Qed.

(** Alice is current in memory, the persisted record names bob, and the
    client resumes bob's session. *)
Lemma X17_witness :
  let session := {| ps_accounts := [bobAccount; aliceAccount];
                    ps_currentAccount := Some bobAccount |} in
  let w := worldOf (runOps [loginOf bobSession; loginOf aliceSession]
                           (initialWorld emptySession)) in
  didOf (currentAccount
           (state (worldOf (onUpdateListener session
                              (clientReturning bobSession) w))))
  = Some "did:2"
  /\ onUpdateCalls session
       (state (worldOf (onUpdateListener session
                          (clientReturning bobSession) w)))
     = [].
Proof.
  cbn zeta.
  apply (X17_listener_settles
           {| ps_accounts := [bobAccount; aliceAccount];
              ps_currentAccount := Some bobAccount |}
           (clientReturning bobSession)
           (worldOf (runOps [loginOf bobSession; loginOf aliceSession]
                            (initialWorld emptySession)))).
  intros p Hp. injection Hp as Hp. subst p.
  exists bobSession. split; reflexivity.
Defined.

(* ===================================================================== *)
(** * Upload dimensions: bounds and idempotence *)
(* ===================================================================== *)

Section UploadBounds.

Variable POST_IMG_MAX : Dimensions.
Variable getDataUriSize : string -> Q.
Hypothesis POST_IMG_MAX_positive : (0 < width POST_IMG_MAX)%Q.
Hypothesis POST_IMG_MAX_wide :
  (height POST_IMG_MAX <= width POST_IMG_MAX)%Q.

Lemma resized_bounded (this : ImageModel) (ar : option AspectRatio) :
  let r := getResizedDimensions this ar (width POST_IMG_MAX) in
  (width r <= width POST_IMG_MAX)%Q /\ (height r <= width POST_IMG_MAX)%Q.
Proof.
  cbn zeta. set (M := width POST_IMG_MAX) in *.
  destruct (getResizedDimensions_cases this ar M) as [[Hm E]|[[Hm E]|[Hm E]]];
    rewrite E; cbn [width height].
  - split; apply Qle_refl.
  - split; [nra | apply Qle_refl].
  - split; [apply Qle_refl|].
    set (m := ratioMultipliers this (orNone ar)) in *.
    assert (Hm0 : (0 < m)%Q) by lra.
    assert (Hq : (M / m * m == M)%Q) by (field; lra).
    assert (Hpos : (0 < M / m)%Q) by (apply Qlt_shift_div_l; lra).
    nra.
Qed.

Lemma upload_bounded (this : ImageModel) (dimensions : Dimensions)
    (ar : option AspectRatio) :
  let r := getUploadDimensions POST_IMG_MAX this dimensions
             (Some POST_IMG_MAX) ar in
  (width r <= width POST_IMG_MAX)%Q /\ (height r <= width POST_IMG_MAX)%Q.
Proof.
  cbn zeta. unfold getUploadDimensions.
  destruct (Qltb (width dimensions) (width POST_IMG_MAX)) eqn:Hw;
    destruct (Qltb (height dimensions) (height POST_IMG_MAX)) eqn:Hh;
    cbn [andb]; try apply resized_bounded.
  apply Qltb_lt in Hw. apply Qltb_lt in Hh. cbn [width height]. split; lra.
Qed.


(** X19: with the default maximum, [getUploadDimensions] is idempotent:
    feeding it its own result gives that result again. *)
Theorem X19_upload_dimensions_idempotent (this : ImageModel)
    (dimensions : Dimensions) (ar : option AspectRatio) :
  getUploadDimensions POST_IMG_MAX this
    (getUploadDimensions POST_IMG_MAX this dimensions None ar) None ar
  = getUploadDimensions POST_IMG_MAX this dimensions None ar.
Proof.
  unfold getUploadDimensions at 2.
  destruct (Qltb (width dimensions) (width POST_IMG_MAX)
            && Qltb (height dimensions) (height POST_IMG_MAX)) eqn:Hc.
  - unfold getUploadDimensions. cbn [width height]. rewrite Hc. reflexivity.
  - unfold getUploadDimensions.
    pose proof (resized_longer_side POST_IMG_MAX POST_IMG_MAX_positive this ar)
      as Hl.
    unfold longerSide in Hl.
    set (r := getResizedDimensions this ar (width POST_IMG_MAX)) in *.
    assert (Hf : Qltb (width r) (width POST_IMG_MAX)
                 && Qltb (height r) (height POST_IMG_MAX) = false).
    { destruct (Qle_bool (width r) (height r)).
      - apply andb_false_intro2. apply Qltb_ge. rewrite Hl.
        exact POST_IMG_MAX_wide.
      - apply andb_false_intro1. apply Qltb_ge. rewrite Hl. apply Qle_refl. }
    rewrite Hf, Hc. reflexivity.
Qed.

Lemma modifiers_no_resize (this : ImageModelState) (crop : option CropRect) :
  filter isResize (manipulateModifiers this crop) = [].
Proof.
  unfold manipulateModifiers.
  destruct (truthyB (flipHorizontal (attributes this)));
    destruct (truthyB (flipVertical (attributes this)));
    destruct (rotate (attributes this));
    destruct crop; reflexivity.
Qed.

(** X20: whatever the attributes, the crop and the model, the actions
    [manipulate] sends to the image library end with a resize, contain no
    other resize, and that resize has no side longer than
    [POST_IMG_MAX.width]. *)
Theorem X20_manipulate_ends_with_bounded_resize (this : ImageModelState)
    (crop : option CropRect) (attrs : ImageManipulationAttributes)
    (result : option ImageResult) :
  exists modifiers d,
    fst (manipulate POST_IMG_MAX getDataUriSize this crop attrs result)
    = modifiers ++ [ActionResize d]
    /\ filter isResize modifiers = []
    /\ (width d <= width POST_IMG_MAX)%Q
    /\ (height d <= width POST_IMG_MAX)%Q.
Proof.
  exists (manipulateModifiers this crop).
  exists (manipulateUploadDimensions POST_IMG_MAX this crop (aspectRatio attrs)).
  split; [reflexivity|]. split; [apply modifiers_no_resize|].
  unfold manipulateUploadDimensions. destruct crop; apply upload_bounded.
Qed.

End UploadBounds.


Lemma X19_witness :
  getUploadDimensions postImgMax2000 photo4032x3024
    (getUploadDimensions postImgMax2000 photo4032x3024
       {| width := 4032%Q; height := 3024%Q |} None (Some Ratio4x3))
    None (Some Ratio4x3)
  = getUploadDimensions postImgMax2000 photo4032x3024
      {| width := 4032%Q; height := 3024%Q |} None (Some Ratio4x3).
Proof.
  apply (X19_upload_dimensions_idempotent postImgMax2000).
  - reflexivity.
  - discriminate.
Defined.

(** Cropping the middle half of the sample photo. *)
Lemma X20_witness :
  exists modifiers d,
    fst (manipulate postImgMax2000 (fun _ => 0%Q) samplePhoto
           (Some {| originX := (1 # 4)%Q; originY := (1 # 4)%Q;
                    crop_width := (1 # 2)%Q; crop_height := (1 # 2)%Q |})
           noAttributes None)
    = modifiers ++ [ActionResize d]
    /\ filter isResize modifiers = []
    /\ (width d <= 2000)%Q
    /\ (height d <= 2000)%Q.
Proof.
  apply (X20_manipulate_ends_with_bounded_resize postImgMax2000
           (fun _ => 0%Q)).
  - reflexivity.
  - discriminate.
Defined.

Section Flips.

Variable POST_IMG_MAX : Dimensions.
Variable getDataUriSize : string -> Q.

Lemma truthyB_notB_notB (x : option bool) :
  truthyB (notB (notB x)) = truthyB x.
Proof. destruct x as [[|]|]; reflexivity. Qed.

(** X21: flipping twice undoes the flip.  After two calls of
    [flipHorizontal()] (or of [flipVertical()]) the actions sent to the
    image library are those [manipulate({})] sends for the model before the
    flips, the flag is as truthy as before, and the other attributes are
    unchanged. *)
Theorem X21_flip_twice (this : ImageModelState)
    (r1 r2 r : option ImageResult) :
  let h1 := snd (doFlipHorizontal POST_IMG_MAX getDataUriSize this r1) in
  let h2 := doFlipHorizontal POST_IMG_MAX getDataUriSize h1 r2 in
  let v1 := snd (doFlipVertical POST_IMG_MAX getDataUriSize this r1) in
  let v2 := doFlipVertical POST_IMG_MAX getDataUriSize v1 r2 in
  fst h2 = fst (resetCompressed POST_IMG_MAX getDataUriSize this r)
  /\ truthyB (flipHorizontal (attributes (snd h2)))
     = truthyB (flipHorizontal (attributes this))
  /\ flipVertical (attributes (snd h2)) = flipVertical (attributes this)
  /\ rotate (attributes (snd h2)) = rotate (attributes this)
  /\ aspectRatio (attributes (snd h2)) = aspectRatio (attributes this)
  /\ fst v2 = fst (resetCompressed POST_IMG_MAX getDataUriSize this r)
  /\ truthyB (flipVertical (attributes (snd v2)))
     = truthyB (flipVertical (attributes this))
  /\ flipHorizontal (attributes (snd v2)) = flipHorizontal (attributes this).
Proof.
  cbn zeta.
  unfold doFlipHorizontal, doFlipVertical, resetCompressed, manipulate,
    manipulateActions, manipulateModifiers, manipulateUploadDimensions,
    manipulateAttributes, withAttributes.
  cbn -[truthyB notB getUploadDimensions].
  rewrite !truthyB_notB_notB. repeat split.
Qed.

(** X22: the aspect ratio stored by [setRatio] is never read by
    [manipulate]: the actions of any later call are the same as without it.
    In particular a flip, a rotation or a reset, which pass no aspect
    ratio, resize to the upload dimensions of the image's own width and
    height with the ratio ['None'], even on a fresh model whose stored
    ratio is ['1:1']. *)
Theorem X22_stored_ratio_is_not_used (ar : option AspectRatio)
    (this : ImageModelState) (crop : option CropRect)
    (attrs : ImageManipulationAttributes) (result : option ImageResult) :
  fst (manipulate POST_IMG_MAX getDataUriSize (setRatio ar this) crop attrs
         result)
  = fst (manipulate POST_IMG_MAX getDataUriSize this crop attrs result)
  /\ fst (resetCompressed POST_IMG_MAX getDataUriSize (setRatio ar this) result)
     = manipulateModifiers this None
       ++ [ActionResize
             (getUploadDimensions POST_IMG_MAX (model this)
                {| width := img_width (model this);
                   height := img_height (model this) |}
                (Some POST_IMG_MAX) None)]
  /\ aspectRatio (attributes (snd (resetCompressed POST_IMG_MAX getDataUriSize
                                     (setRatio ar this) result)))
     = ar.
Proof. repeat split. Qed.

End Flips.

(* ===================================================================== *)
(** * Cropping *)
(* ===================================================================== *)

(** X23: [crop()] asks the cropper for an output with no side longer than
    [POST_IMG_MAX.width] ([POST_IMG_MAX] being positive and not taller than
    wide).  When the cropper throws, the error is logged and the model is
    left exactly as it was; when it resolves, the result becomes both
    [cropped] and [compressed] and nothing else changes. *)
Theorem X23_crop (POST_IMG_MAX : Dimensions) (this : ImageModelState)
    (outcome : option RNImage) :
  (0 < width POST_IMG_MAX)%Q ->
  (height POST_IMG_MAX <= width POST_IMG_MAX)%Q ->
  let '(options, this', logged) := crop POST_IMG_MAX this outcome in
  (co_width options <= width POST_IMG_MAX)%Q
  /\ (co_height options <= width POST_IMG_MAX)%Q
  /\ match outcome with
     | None => this' = this /\ logged = ["Failed to crop photo"]
     | Some c =>
         cropped this' = Some c /\ compressed this' = Some c
         /\ attributes this' = attributes this /\ model this' = model this
         /\ logged = []
     end.
Proof.
  intros Hpos Hwide. unfold crop. cbn [co_width co_height].
  pose proof (Hbound := upload_bounded POST_IMG_MAX Hpos Hwide
                (model this)
                {| width := img_width (model this);
                   height := img_height (model this) |} None).
  cbn zeta in Hbound. destruct Hbound as [Hw Hh].
  split; [exact Hw|]. split; [exact Hh|].
  destruct outcome; repeat split.
Qed.

Lemma X23_witness :
  let '(options, this', logged) := crop postImgMax2000 samplePhoto None in
  (co_width options <= 2000)%Q
  /\ (co_height options <= 2000)%Q
  /\ this' = samplePhoto /\ logged = ["Failed to crop photo"].
Proof.
  pose proof (X23_crop postImgMax2000 samplePhoto None eq_refl) as H.
  cbn zeta in H. apply H. discriminate.
Defined.

(* ===================================================================== *)
(** * Removing the current account *)
(* ===================================================================== *)

(** X24: [removeAccount] of the current account does not last: the next
    [updateCurrentAccount] puts the (patched) account back at the head of
    the roster, and [currentAccount] is in the roster again. *)
Theorem X24_update_after_remove_restores (patch : AccountPatch)
    (c : SessionAccount) (w : World) :
  currentAccount (state w) = Some c ->
  let w1 := worldOf (removeAccount c w) in
  let w2 := worldOf (updateCurrentAccount patch w1) in
  ~ In (did c) (dids (accounts (state w1)))
  /\ hd_error (accounts (state w2)) = Some (patchAccount c patch)
  /\ In (did c) (dids (accounts (state w2)))
  /\ currentInRoster (state w2).
Proof.
  intros Hc. cbn zeta.
  unfold removeAccount, updateCurrentAccount, setStateAndPersist, worldOf.
  cbn -[withoutDid patchAccount]. rewrite Hc. cbn -[withoutDid patchAccount].
  split.
  - intro Hin. apply in_dids_withoutDid in Hin. tauto.
  - split; [reflexivity|]. split.
    + left. reflexivity.
    + intros c' Hc'. injection Hc' as Hc'. subst c'. left. reflexivity.
Qed.

Lemma X24_witness :
  In "did:2"
     (dids (accounts
              (state
                 (worldOf
                    (updateCurrentAccount
                       {| p_handle := Some "bobby"; p_email := None;
                          p_emailConfirmed := None |}
                       (worldOf (removeAccount bobAccount
                                   stateOfBobAfterAlice))))))).
Proof.
  apply (X24_update_after_remove_restores
           {| p_handle := Some "bobby"; p_email := None;
              p_emailConfirmed := None |}
           bobAccount stateOfBobAfterAlice eq_refl).
Defined.
